(** * Startup evaluation pipeline: the driver [evaluate_startup_gradio] and
      the agent graph of [agnets_main.py].

    The program builds a static graph of agents (guardrail backing agents,
    leaf evaluators, improvement agents, the risk finder, the orchestrator)
    and exposes one entry point, [evaluate_startup_gradio], that runs the
    orchestrator and then the risk finder under a single [try]/[except].

    The language model is an oracle: a function from the request an agent
    sends to the response it gets.  Every computation is a function of that
    oracle and yields the trace of the calls it made together with either a
    value or the exception it raised. *)

From Stdlib Require Import String Ascii List Bool Arith Lia.
Import ListNotations.
Local Open Scope string_scope.
Local Open Scope list_scope.

(** ** Python values that flow through the program *)

(** [final_output] of a run is a string for a plain-text agent and an
    instance of a pydantic [BaseModel] for an agent with an [output_type].
    Every [BaseModel] of the program has boolean fields only. *)
Inductive value : Type :=
| VNone
| VStr (s : string)
| VObj (cls : string) (fields : list (string * bool)).

(** Truth value of a Python object: [None] and the empty string are falsy,
    everything else that occurs here is truthy. *)
Definition truthy (v : value) : bool :=
  match v with
  | VNone => false
  | VStr s => negb (String.eqb s "")
  | VObj _ _ => true
  end.

(** Python's [a or b]. *)
Definition py_or (a b : value) : value := if truthy a then a else b.

(** A [BaseModel] subclass: its name and its declared fields. *)
Record OutputType : Type := mkOutputType {
  class_name : string;
  class_fields : list string
}.

Fixpoint lookup_field (f : string) (fs : list (string * bool)) : option bool :=
  match fs with
  | [] => None
  | (k, b) :: r => if String.eqb k f then Some b else lookup_field f r
  end.

(** ** Reading a reply

    The payload of a final reply is the text of its last message: [VNone]
    when the reply carries no message, [VStr s] for a text [s] that is not a
    JSON object, [VObj _ fs] for the text of a JSON object with members
    [fs] (the class name of a payload means nothing). *)

Definition json_bool (b : bool) : string := if b then "true" else "false".

Definition json_member (m : string * bool) : string :=
  String "034"%char (fst m ++ String "034"%char (": " ++ json_bool (snd m))).

Fixpoint json_members (fs : list (string * bool)) : string :=
  match fs with
  | [] => ""
  | [m] => json_member m
  | m :: r => json_member m ++ ", " ++ json_members r
  end.

Definition json_text (fs : list (string * bool)) : string :=
  "{" ++ json_members fs ++ "}".

(** The final output of an agent without [output_type]: the text itself,
    the empty string when there is none. *)
Definition plain_output (v : value) : value :=
  match v with
  | VObj _ fs => VStr (json_text fs)
  | _ => py_or v (VStr "")
  end.

(** Validation of a JSON object against a class: every declared field must
    be there (of repeated members the last one counts), members that are not
    declared are dropped. *)
Fixpoint validate (declared : list string) (fs : list (string * bool))
  : option (list (string * bool)) :=
  match declared with
  | [] => Some []
  | f :: r =>
      match lookup_field f (rev fs), validate r fs with
      | Some b, Some l => Some ((f, b) :: l)
      | _, _ => None
      end
  end.

(** What the run loop makes of a final reply. *)
Inductive Reading : Type :=
| Output (out : value)
| RunAgain
| Invalid.

(** An agent without [output_type] takes any text as its final output.  An
    agent with one validates a text that is there, and has no final output
    yet when the text is empty or missing. *)
Definition read_final (t : option OutputType) (v : value) : Reading :=
  match t with
  | None => Output (plain_output v)
  | Some T =>
      if truthy v
      then match v with
           | VObj _ fs =>
               match validate (class_fields T) fs with
               | Some l => Output (VObj (class_name T) l)
               | None => Invalid
               end
           | _ => Invalid
           end
      else RunAgain
  end.

(** ** The model oracle and the trace *)

(** What a conversation handed to the model is made of. *)
Inductive Item : Type :=
| InputItem (v : value)
| MessageItem (v : value)
| HandoffItem (source target : string)
| ToolCallItem (tool : string) (arg : string)
| ToolOutputItem (tool : string) (output : string).

(** One inference request, as an agent issues it. *)
Record InferCall : Type := mkInferCall {
  call_agent : string;
  call_model : option string;
  call_instructions : string;
  call_output_type : option OutputType;
  call_tools : list (string * string);
  call_handoffs : list string;
  call_input : list Item
}.

(** What the model answers when the provider call succeeds: a final
    reply, a handoff request, or a tool call.  A refusal is not among the
    replies modelled. *)
Inductive Reply : Type :=
| Final (v : value)
| Handoff (target : string)
| ToolCall (tool : string) (arg : string).

(** The oracle: [None] is a failed provider call. *)
Definition LLM : Type := InferCall -> option Reply.

Inductive Event : Type :=
| EInfer (c : InferCall)
| EToolInvoke (tool : string).

(** ** Exceptions *)

Record GuardrailFunctionOutput : Type := mkGuardrailFunctionOutput {
  output_info : value;
  tripwire_triggered : bool
}.

Inductive exn : Type :=
| InputGuardrailTripwireTriggered (guardrail : string) (output : GuardrailFunctionOutput)
| OutputGuardrailTripwireTriggered (guardrail : string) (output : GuardrailFunctionOutput)
| MaxTurnsExceeded
| ModelBehaviorError
| InferenceFailure
| AttributeError.

(** ** The effect monad: reads the oracle, writes the trace, may raise *)

Definition M (A : Type) : Type := LLM -> list Event * (exn + A).

Definition ret {A} (a : A) : M A := fun _ => ([], inr a).

Definition raise {A} (e : exn) : M A := fun _ => ([], inl e).

Definition bind {A B} (m : M A) (f : A -> M B) : M B :=
  fun llm =>
    match m llm with
    | (l1, inl e) => (l1, inl e)
    | (l1, inr a) =>
        match f a llm with
        | (l2, r) => (l1 ++ l2, r)
        end
    end.

(** [try m except h]: the handler [h] says which exceptions it catches. *)
Definition try_except {A} (m : M A) (h : exn -> option (M A)) : M A :=
  fun llm =>
    match m llm with
    | (l1, inl e) =>
        match h e with
        | Some k => match k llm with (l2, r) => (l1 ++ l2, r) end
        | None => (l1, inl e)
        end
    | (l1, inr a) => (l1, inr a)
    end.

Notation "x <- c1 ;; c2" := (bind c1 (fun x => c2))
  (at level 61, c1 at next level, right associativity).
Notation "c1 ;;; c2" := (bind c1 (fun _ => c2))
  (at level 61, right associativity).

Definition trace {A} (m : M A) (llm : LLM) : list Event := fst (m llm).
Definition outcome {A} (m : M A) (llm : LLM) : exn + A := snd (m llm).

(** ** Agents *)

Record Guardrail : Type := mkGuardrail {
  guardrail_name : string;
  guardrail_function : value -> M GuardrailFunctionOutput
}.

Record FunctionTool : Type := mkFunctionTool {
  tool_name : string;
  tool_description : string;
  on_invoke_tool : string -> M string
}.

Set Warnings "-register-all".

Inductive Agent : Type := mkAgent {
  name : string;
  instructions : string;
  output_type : option OutputType;
  model : option string;
  tools : list FunctionTool;
  handoffs : list Agent;
  input_guardrails : list Guardrail;
  output_guardrails : list Guardrail
}.

Record RunResult : Type := mkRunResult {
  final_output : value;
  last_agent : string
}.

(** ** The runner

    [Agent], [Runner.run], the guardrail decorators and [as_tool] belong to
    the [agents] package that the program imports.  They are modelled after
    the run loop of that package:
    - the input guardrails that run are those of the starting agent, and a
      trip ends the run;
    - a reply that gives no final output yet makes the same agent run
      again, on the conversation extended with that reply;
    - a handoff makes its target the current agent;
    - the output guardrails that run are those of the agent that produced
      the final output;
    - a run makes at most [DEFAULT_MAX_TURNS] model calls;
    - an exception inside a tool is reported to the calling model as text.
    The package starts the input guardrails together with the first model
    call, and the output guardrails together with one another; here they
    are taken in turn (the input guardrails before the first model call,
    the guardrails of a chain in the order of their list, up to the first
    that raises), so that a trace is one sequential schedule of a run.
    A guardrail function receives the run context and the guarded agent as
    well; the guardrail functions of the program pass the context on as it
    is (the driver sets none) and do not use the agent. *)

Definition request (a : Agent) (conv : list Item) : InferCall :=
  {| call_agent := name a;
     call_model := model a;
     call_instructions := instructions a;
     call_output_type := output_type a;
     call_tools := map (fun t => (tool_name t, tool_description t)) (tools a);
     call_handoffs := map name (handoffs a);
     call_input := conv |}.

(** What a turn leads to. *)
Inductive NextStep : Type :=
| NextStepFinalOutput (out : value)
| NextStepRunAgain (v : value)
| NextStepHandoff (target : string)
| NextStepToolCall (tool : string) (arg : string).

(** One turn of agent [a]: the model call and the reading of its reply.  A
    provider failure raises [InferenceFailure]; a final reply that does not
    validate against the agent's [output_type] raises
    [ModelBehaviorError]. *)
Definition infer (a : Agent) (conv : list Item) : M NextStep :=
  fun llm =>
    match llm (request a conv) with
    | None => ([EInfer (request a conv)], inl InferenceFailure)
    | Some (Final v) =>
        match read_final (output_type a) v with
        | Output out => ([EInfer (request a conv)], inr (NextStepFinalOutput out))
        | RunAgain => ([EInfer (request a conv)], inr (NextStepRunAgain v))
        | Invalid => ([EInfer (request a conv)], inl ModelBehaviorError)
        end
    | Some (Handoff target) =>
        ([EInfer (request a conv)], inr (NextStepHandoff target))
    | Some (ToolCall t arg) =>
        ([EInfer (request a conv)], inr (NextStepToolCall t arg))
    end.

Fixpoint find_handoff (target : string) (l : list Agent) : option Agent :=
  match l with
  | [] => None
  | a :: r => if String.eqb (name a) target then Some a else find_handoff target r
  end.

Fixpoint find_tool (t : string) (l : list FunctionTool) : option FunctionTool :=
  match l with
  | [] => None
  | x :: r => if String.eqb (tool_name x) t then Some x else find_tool t r
  end.

Definition tool_error_message : string :=
  "An error occurred while running the tool. Please try again.".

(** A tool call: the tool runs to completion; an exception inside it is
    turned into an error text for the calling model. *)
Definition invoke_tool (t : FunctionTool) (arg : string) : M string :=
  fun llm =>
    match on_invoke_tool t arg llm with
    | (l, inr s) => (EToolInvoke (tool_name t) :: l, inr s)
    | (l, inl _) => (EToolInvoke (tool_name t) :: l, inr tool_error_message)
    end.

Definition DEFAULT_MAX_TURNS : nat := 10.

(** The agent loop: one model call per turn.  A final output ends the run,
    a reply without final output runs the same agent again, a handoff makes
    the target the current agent, a tool call appends the tool's output and
    runs the same agent again. *)
Fixpoint run_loop (turns : nat) (current : Agent) (conv : list Item)
  : M (Agent * value) :=
  match turns with
  | O => raise MaxTurnsExceeded
  | S n =>
      r <- infer current conv ;;
      match r with
      | NextStepFinalOutput out => ret (current, out)
      | NextStepRunAgain v => run_loop n current (conv ++ [MessageItem v])
      | NextStepHandoff target =>
          match find_handoff target (handoffs current) with
          | Some a => run_loop n a (conv ++ [HandoffItem (name current) target])
          | None => raise ModelBehaviorError
          end
      | NextStepToolCall t arg =>
          match find_tool t (tools current) with
          | Some f =>
              out <- invoke_tool f arg ;;
              run_loop n current (conv ++ [ToolCallItem t arg; ToolOutputItem t out])
          | None => raise ModelBehaviorError
          end
      end
  end.

Arguments run_loop : simpl never.

(** A guardrail chain: the first guardrail whose tripwire is set raises
    [tripped name output]. *)
Fixpoint run_guardrails (tripped : string -> GuardrailFunctionOutput -> exn)
    (gs : list Guardrail) (v : value) : M unit :=
  match gs with
  | [] => ret tt
  | g :: r =>
      o <- guardrail_function g v ;;
      if tripwire_triggered o
      then raise (tripped (guardrail_name g) o)
      else run_guardrails tripped r v
  end.

(** [Runner.run]: the input guardrails of the starting agent, the agent
    loop, then the output guardrails of the agent that produced the final
    output. *)
Definition Runner_run (starting_agent : Agent) (input : value) : M RunResult :=
  run_guardrails InputGuardrailTripwireTriggered
    (input_guardrails starting_agent) input ;;;
  r <- run_loop DEFAULT_MAX_TURNS starting_agent [InputItem input] ;;
  run_guardrails OutputGuardrailTripwireTriggered
    (output_guardrails (fst r)) (snd r) ;;;
  ret {| final_output := snd r; last_agent := name (fst r) |}.

(** [agent.as_tool(tool_name, tool_description)]. *)
Definition text_of (v : value) : string :=
  match v with
  | VStr s => s
  | _ => ""
  end.

Definition as_tool (a : Agent) (tname tdesc : string) : FunctionTool :=
  {| tool_name := tname;
     tool_description := tdesc;
     on_invoke_tool := fun input =>
       output <- Runner_run a (VStr input) ;;
       ret (text_of (final_output output)) |}.

(** Attribute access [o.f] on a final output. *)
Definition getattr (v : value) (f : string) : M bool :=
  match v with
  | VObj _ fs =>
      match lookup_field f fs with
      | Some b => ret b
      | None => raise AttributeError
      end
  | _ => raise AttributeError
  end.

(** ** Guardrail classes *)

Definition in_pii_and_poli_guardrail : OutputType :=
  {| class_name := "in_pii_and_poli_guardrail"; class_fields := ["political_and_pii"] |}.

Definition product_eval_bias : OutputType :=
  {| class_name := "product_eval_bias"; class_fields := ["product_eval_bias"] |}.

Definition team_eval_bias : OutputType :=
  {| class_name := "team_eval_bias"; class_fields := ["team_eval_bias"] |}.

Definition out_pii_and_poli_guardrail : OutputType :=
  {| class_name := "out_pii_and_poli_guardrail"; class_fields := ["sens_cont"] |}.

Definition hallucination_guardrail : OutputType :=
  {| class_name := "hallucination_guardrail"; class_fields := ["hallucination"] |}.

Definition over_extreme_langauge_guardrail : OutputType :=
  {| class_name := "over_extreme_langauge_guardrail"; class_fields := ["extreme_wording"] |}.

Definition bias_guardrail : OutputType :=
  {| class_name := "bias_guardrail"; class_fields := ["bias"] |}.

(** An agent built with the constructor's defaults. *)
Definition default_agent (n i : string) : Agent :=
  {| name := n; instructions := i; output_type := None; model := None;
     tools := []; handoffs := []; input_guardrails := [];
     output_guardrails := [] |}.

(** ** Input guardrail *)

Definition in_guardrail_agent : Agent :=
  {| name := "input_pii_poli_agent";
     instructions := "When you receive a message, analyze it for any personally identifiable information (PII) or analyze it for any political content, which should be avoided. Either one needs to be true for the guardrail to be triggered.";
     output_type := Some in_pii_and_poli_guardrail;
     model := Some "gpt-4o-mini";
     tools := []; handoffs := []; input_guardrails := []; output_guardrails := [] |}.

Definition pii_and_poli_guardrail : Guardrail :=
  {| guardrail_name := "pii_and_poli_guardrail";
     guardrail_function := fun input =>
       result <- Runner_run in_guardrail_agent input ;;
       t <- getattr (final_output result) "political_and_pii" ;;
       ret {| output_info := final_output result; tripwire_triggered := t |} |}.

(** ** Output guardrails of the leaf evaluators *)

Definition bias_in_product_eval_agent : Agent :=
  {| name := "bias_in_product_eval_agent";
     instructions := "You are an expert agent responsible for detecting potential bias in the evaluation of a product, service, or business idea. Carefully examine the input for signs of biased assumptions, unfair comparisons, culturally insensitive language, or exclusionary framing. You should also flag any statements that show favoritism, lack objectivity, or reinforce stereotypes.Your goal is to provide a reasoned analysis identifying whether bias is present, and if so, explain what kind of bias is detected and how it may affect the credibility or inclusivity of the evaluation. Be specific, concise, and constructive in your feedback.";
     output_type := Some product_eval_bias;
     model := Some "gpt-4o-mini";
     tools := []; handoffs := []; input_guardrails := []; output_guardrails := [] |}.

Definition bias_in_product_eval : Guardrail :=
  {| guardrail_name := "bias_in_product_eval";
     guardrail_function := fun input =>
       result <- Runner_run bias_in_product_eval_agent input ;;
       t <- getattr (final_output result) "product_eval_bias" ;;
       ret {| output_info := final_output result; tripwire_triggered := t |} |}.

Definition bias_in_team_eval_agent : Agent :=
  {| name := "bias_in_team_eval_agent";
     instructions := "You are responsible for identifying potential bias in the evaluation of a startup team. Review the input for biased language, assumptions, or judgments related to gender, ethnicity, age, education background, geographic origin, or professional experience. Pay attention to whether the evaluation unfairly favors or criticizes individuals or groups based on identity factors or stereotypes.Your goal is to determine whether bias is present in how the team is being described or assessed. If bias is detected, explain what type of bias it is, how it may influence the evaluation, and provide a constructive suggestion to improve objectivity and fairness.";
     output_type := Some team_eval_bias;
     model := Some "gpt-4o-mini";
     tools := []; handoffs := []; input_guardrails := []; output_guardrails := [] |}.

Definition bias_in_team_eval : Guardrail :=
  {| guardrail_name := "bias_in_team_eval";
     guardrail_function := fun input =>
       result <- Runner_run bias_in_team_eval_agent input ;;
       t <- getattr (final_output result) "team_eval_bias" ;;
       ret {| output_info := final_output result; tripwire_triggered := t |} |}.

(** ** Output guardrails of the orchestrator *)

Definition out_pii_or_poli_guardrail_agent : Agent :=
  {| name := "sensitive_content_agent";
     instructions := "When you receive a message, analyze it for any sensitive content. This Includes but is not limited to: PII, political content, hate speech, or any other content that should not be shared/can cause offense to a group of people.";
     output_type := Some out_pii_and_poli_guardrail;
     model := Some "gpt-4o-mini";
     tools := []; handoffs := []; input_guardrails := []; output_guardrails := [] |}.

Definition sens_content_guardrail : Guardrail :=
  {| guardrail_name := "sens_content_guardrail";
     guardrail_function := fun input =>
       result <- Runner_run out_pii_or_poli_guardrail_agent input ;;
       t <- getattr (final_output result) "sens_cont" ;;
       ret {| output_info := final_output result; tripwire_triggered := t |} |}.

Definition hallucination_guardrail_agent : Agent :=
  {| name := "hallucination_finder_agent";
     instructions := "Check if the output includes hallucinations—claims or facts that are not grounded in the input, known context, or verified sources. Set hallucination = True only when clear inaccuracies or invented content are detected.";
     output_type := Some hallucination_guardrail;
     model := Some "gpt-4o-mini";
     tools := []; handoffs := []; input_guardrails := []; output_guardrails := [] |}.

Definition hallucination_output_guardrail : Guardrail :=
  {| guardrail_name := "hallucination_output_guardrail";
     guardrail_function := fun input =>
       result <- Runner_run hallucination_guardrail_agent input ;;
       t <- getattr (final_output result) "hallucination" ;;
       ret {| output_info := final_output result; tripwire_triggered := t |} |}.

Definition over_extreme_langauge_guardrail_agent : Agent :=
  {| name := "extreme_language_agent";
     instructions := "Assess the output for overly extreme or emotionally charged language (e.g., hyperbole, sensationalism, inflammatory tone). Mark extreme_wording = True if the wording is disproportionate to the subject matter or could mislead, provoke, or escalate.";
     output_type := Some over_extreme_langauge_guardrail;
     model := Some "gpt-4o-mini";
     tools := []; handoffs := []; input_guardrails := []; output_guardrails := [] |}.

Definition extreme_language_guardrail : Guardrail :=
  {| guardrail_name := "extreme_language_guardrail";
     guardrail_function := fun input =>
       result <- Runner_run over_extreme_langauge_guardrail_agent input ;;
       t <- getattr (final_output result) "extreme_wording" ;;
       ret {| output_info := final_output result; tripwire_triggered := t |} |}.

Definition bias_guardrail_agent : Agent :=
  {| name := "bias_agent";
     instructions := "Check the output for any form of bias—ideological, cultural, or demographic. If bias is detected, set bias = True and include representative examples in examples that highlight where and how the bias appears. Prioritize objectivity and fairness.";
     output_type := Some bias_guardrail;
     model := Some "gpt-4o-mini";
     tools := []; handoffs := []; input_guardrails := []; output_guardrails := [] |}.

Definition bias_detection_guardrail : Guardrail :=
  {| guardrail_name := "bias_detection_guardrail";
     guardrail_function := fun input =>
       result <- Runner_run bias_guardrail_agent input ;;
       t <- getattr (final_output result) "bias" ;;
       ret {| output_info := final_output result; tripwire_triggered := t |} |}.

(** ** Startup evaluator tool agents *)

Definition product_eval_agent : Agent :=
  {| name := "product_eval_agent";
     instructions := "Evaluate the startup's product quality, tech defensibility, and fit to user needs. Score 0–5.";
     output_type := None; model := None; tools := []; handoffs := [];
     input_guardrails := [];
     output_guardrails := [bias_in_product_eval] |}.

Definition market_eval_agent : Agent :=
  default_agent "market_eval_agent"
    "Evaluate the market size, growth, timing, and competitive landscape. Score 0–5.".

Definition team_eval_agent : Agent :=
  {| name := "team_eval_agent";
     instructions := "Evaluate the startup's founding and leadership team on experience, execution, and completeness. Score 0–5.";
     output_type := None; model := None; tools := []; handoffs := [];
     input_guardrails := [];
     output_guardrails := [bias_in_team_eval] |}.

(** ** Main startup evaluator agent *)

Definition startup_eval_agent : Agent :=
  {| name := "startup_eval_agent";
     instructions := "Evaluate the startup's founding and leadership team on experience, execution, and completeness. Score 0–5.";
     output_type := None; model := None;
     tools :=
       [ as_tool product_eval_agent "product_evaluation_tool"
           "Evaluates product quality, defensibility, and user fit.";
         as_tool market_eval_agent "market_evaluation_tool"
           "Analyzes market size, timing, and competition.";
         as_tool team_eval_agent "team_evaluation_tool"
           "Assesses team experience, execution, and completeness." ];
     handoffs := []; input_guardrails := []; output_guardrails := [] |}.

(** ** Startup improvement handoff agents *)

Definition differentiation_analyzer_agent : Agent :=
  default_agent "differentiation_analyzer_agent"
    "Analyze the startup description to identify what differentiates it from existing competitors. Focus on unique features, technology, user experience, market positioning, or business model innovation. Clearly articulate the startup's competitive edge and highlight any elements that are replicable vs. defensible. If no clear differentiation is present, note that explicitly.".

Definition vision_agent : Agent :=
  default_agent "vision_agent"
    "Examine the startup’s long-term vision and ambition. Assess how clearly the founder(s) communicate their goals, future market position, and broader impact. Determine whether the vision is compelling, realistic, and aligned with the current product or roadmap. Flag overly vague, generic, or inflated language, and comment on how the vision supports potential investor or user confidence.".

Definition scalability_agent : Agent :=
  default_agent "scalability_agent"
    "Evaluate the startup’s potential for scale. Analyze whether its core product, business model, and operations can grow efficiently as demand increases. Consider factors like automation, infrastructure, network effects, marginal costs, team scalability, and platform readiness. Flag any structural barriers to scaling or signs that the current setup is not prepared for large-scale growth.".

Definition startup_improvement_agent : Agent :=
  {| name := "startup_improvement_agent";
     instructions := "You are responsible for analyzing and improving a startup based on its differentiation, vision, and scalability. Use your specialized agents only if the input contains relevant details in that area. Handoff to:- `differentiation_analyzer_agent` if there are details about competition, features, or market positioning.- `vision_agent` if the input mentions mission, ambition, or long-term goals.- `scalability_agent` if the input discusses growth, infrastructure, or market expansion plans.Return a combined response highlighting strengths, weaknesses, and opportunities for improvement.";
     output_type := None; model := None; tools := [];
     handoffs := [differentiation_analyzer_agent; vision_agent; scalability_agent];
     input_guardrails := []; output_guardrails := [] |}.

(** ** Risk finder agent *)

Definition risk_finder_agent : Agent :=
  default_agent "risk_finder_agent"
    "Scan the content for known startup risk factors. Flag any that are present, with a 1-line explanation. Examples could include: being a solo founder, No revenue model, High competition industry, Regulatory exposure, and High burn/low growth of cash.".

(** ** Orchestrator agent *)

Definition orchestrator_agent : Agent :=
  {| name := "orchestrator_agent";
     instructions := "You are responsible for coordinating the overall evaluation of a startup submission. You have access to a specialized agent called `startup_improvement_agent` which contains expert agents that handle different dimensions of startup analysis. Your task is to:- Review the user input for meaningful startup-related content.- If the input seems to include information about differentiation, vision, or scalability, hand it off to `startup_improvement_agent`.- `startup_improvement_agent` will internally decide which of its sub-agents to activate based on content relevance.- If the input is vague, generic, or lacks business substance, you may return a brief summary or request clarification instead.Return a clear, well-organized response summarizing the startup’s strengths, weaknesses, and areas for improvement, combining insights from any active agents.";
     output_type := None; model := None; tools := [];
     handoffs := [startup_improvement_agent];
     input_guardrails := [pii_and_poli_guardrail];
     output_guardrails :=
       [sens_content_guardrail; hallucination_output_guardrail;
        extreme_language_guardrail; bias_detection_guardrail] |}.

(** ** The driver *)

Definition guardrail_tripped_message : string :=
  "Guardrail tripped – sensitive content detected. Please revise your input.".

Definition no_risks_message : string := "No major risks flagged.".

Definition evaluate_startup_gradio (user_input : string) : M (value * value) :=
  try_except
    (result <- Runner_run orchestrator_agent (VStr user_input) ;;
     risks <- Runner_run risk_finder_agent (VStr user_input) ;;
     ret (final_output result, py_or (final_output risks) (VStr no_risks_message)))
    (fun e =>
       match e with
       | OutputGuardrailTripwireTriggered _ _ =>
           Some (ret (VStr guardrail_tripped_message, VStr ""))
       | _ => None
       end).

(** * Vocabulary of the statements *)

(** ** Trace properties *)

(** How a computation ended: the exception it raised, if any. *)
Definition status {A} (r : exn + A) : option exn :=
  match r with
  | inl e => Some e
  | inr _ => None
  end.

(** [Phi] holds of the trace and the ending of [m], whatever the model. *)
Definition holds (Phi : LLM -> list Event -> option exn -> Prop) {A}
    (m : M A) : Prop :=
  forall llm, Phi llm (trace m llm) (status (outcome m llm)).

(** An agent respects [Phi] when its own model calls, its tools and its
    guardrail functions do, and so do the agents it can hand off to. *)
Inductive respects (Phi : LLM -> list Event -> option exn -> Prop)
  : Agent -> Prop :=
| respects_intro (a : Agent) :
    (forall conv, holds Phi (infer a conv)) ->
    (forall t arg, In t (tools a) -> holds Phi (invoke_tool t arg)) ->
    Forall (respects Phi) (handoffs a) ->
    (forall g v, In g (input_guardrails a) -> holds Phi (guardrail_function g v)) ->
    (forall g v, In g (output_guardrails a) -> holds Phi (guardrail_function g v)) ->
    respects Phi a.

Definition within (P : Event -> Prop) : LLM -> list Event -> option exn -> Prop :=
  fun _ l _ => Forall P l.



(** ** Who is called *)

Definition agents_called (l : list Event) : list string :=
  flat_map (fun e => match e with
                     | EInfer c => [call_agent c]
                     | EToolInvoke _ => []
                     end) l.

Definition calls_only (names : list string) (e : Event) : Prop :=
  match e with
  | EInfer c => In (call_agent c) names
  | EToolInvoke _ => False
  end.

(** The agents a run of the orchestrator can call. *)
Definition orchestrator_callees : list string :=
  [ "input_pii_poli_agent"; "orchestrator_agent"; "startup_improvement_agent";
    "differentiation_analyzer_agent"; "vision_agent"; "scalability_agent";
    "sensitive_content_agent"; "hallucination_finder_agent";
    "extreme_language_agent"; "bias_agent" ].

(** The agents the entry point can call. *)
Definition entry_point_callees : list string :=
  orchestrator_callees ++ ["risk_finder_agent"].

(** The model identifiers written in the program. *)
Definition fixed_model (e : Event) : Prop :=
  match e with
  | EInfer c => call_model c = None \/ call_model c = Some "gpt-4o-mini"
  | EToolInvoke _ => True
  end.

(** The agents reachable from [a] along handoffs, and the handoff chains
    that start at [a]. *)
Fixpoint handoff_closure (a : Agent) : list Agent :=
  a :: flat_map handoff_closure (handoffs a).

Fixpoint handoff_paths (a : Agent) : list (list string) :=
  [name a] :: map (cons (name a)) (flat_map handoff_paths (handoffs a)).

(** An agent that, like the agents it can hand off to, has no tools and
    no [output_type]. *)
Inductive toolless : Agent -> Prop :=
| toolless_intro (a : Agent) :
    tools a = [] -> output_type a = None ->
    Forall toolless (handoffs a) -> toolless a.

(** ** The driver and the guardrail functions *)

(** Exceptions the handler of the driver lets through. *)
Definition uncaught (e : exn) : Prop :=
  match e with
  | OutputGuardrailTripwireTriggered _ _ => False
  | _ => True
  end.

(** The guardrail functions of the program all have this body: a run of
    the backing agent on the text, then the boolean field of its final
    output as the tripwire. *)
Definition guardrail_body (backing : Agent) (field : string) (input : value)
  : M GuardrailFunctionOutput :=
  result <- Runner_run backing input ;;
  t <- getattr (final_output result) field ;;
  ret {| output_info := final_output result; tripwire_triggered := t |}.

(** ** Test doubles: a model scripted by agent name *)

Fixpoint scripted (script : list (string * Reply)) (c : InferCall) : option Reply :=
  match script with
  | [] => None
  | (n, r) :: rest =>
      if String.eqb n (call_agent c) then Some r else scripted rest c
  end.

(** The structured output of a guardrail backing agent whose boolean
    fields all carry [b]. *)
Definition verdict (T : OutputType) (b : bool) : Reply :=
  Final (VObj (class_name T) (map (fun f => (f, b)) (class_fields T))).

Definition submission : string :=
  "We are a two-person team building a logistics SaaS for mid-size retailers, $2M ARR, Series A.".

(** A stub model: the five guardrail verdicts of a run of the orchestrator,
    the orchestrator's own reply, and fixed replies of the improvement
    agent and of the risk finder. *)
Definition stub (pii sens hall extr bias : bool) (orchestrator : Reply) : LLM :=
  scripted
    [ ("input_pii_poli_agent", verdict in_pii_and_poli_guardrail pii);
      ("orchestrator_agent", orchestrator);
      ("startup_improvement_agent", Final (VStr "Sharpen the moat."));
      ("sensitive_content_agent", verdict out_pii_and_poli_guardrail sens);
      ("hallucination_finder_agent", verdict hallucination_guardrail hall);
      ("extreme_language_agent", verdict over_extreme_langauge_guardrail extr);
      ("bias_agent", verdict bias_guardrail bias);
      ("risk_finder_agent", Final (VStr "Solo founder: key-person risk.")) ].

(** No guardrail triggers and the risk finder finds nothing. *)
Definition stub_no_risk : LLM :=
  scripted
    [ ("input_pii_poli_agent", verdict in_pii_and_poli_guardrail false);
      ("orchestrator_agent", Final (VStr "Promising."));
      ("sensitive_content_agent", verdict out_pii_and_poli_guardrail false);
      ("hallucination_finder_agent", verdict hallucination_guardrail false);
      ("extreme_language_agent", verdict over_extreme_langauge_guardrail false);
      ("bias_agent", verdict bias_guardrail false);
      ("risk_finder_agent", Final (VStr "")) ].


(** The risk finder answers with no message at all. *)
Definition stub_absent_risk : LLM :=
  scripted
    [ ("input_pii_poli_agent", verdict in_pii_and_poli_guardrail false);
      ("orchestrator_agent", Final (VStr "Promising."));
      ("sensitive_content_agent", verdict out_pii_and_poli_guardrail false);
      ("hallucination_finder_agent", verdict hallucination_guardrail false);
      ("extreme_language_agent", verdict over_extreme_langauge_guardrail false);
      ("bias_agent", verdict bias_guardrail false);
      ("risk_finder_agent", Final VNone) ].

(** Backing agents that answer with an empty text until their tenth turn. *)
Definition stub_hesitant : LLM :=
  fun c =>
    if (String.eqb (call_agent c) "orchestrator_agent"
        || String.eqb (call_agent c) "risk_finder_agent"
        || Nat.ltb 9 (List.length (call_input c)))%bool
    then stub_no_risk c
    else Some (Final (VStr "")).

(** A hallucination check whose JSON object repeats its field and carries a
    member the class does not declare. *)
Definition stub_extra_member : LLM :=
  scripted
    [ ("hallucination_finder_agent",
       Final (VObj "" [("hallucination", false); ("confidence", true);
                       ("hallucination", true)])) ].

(** Stubs for the leaf evaluators: each answers with a score, and the two
    bias checks answer [bias]. *)
Definition stub_leaves (bias : bool) : LLM :=
  scripted
    [ ("product_eval_agent", Final (VStr "Score: 4"));
      ("market_eval_agent", Final (VStr "Score: 4"));
      ("team_eval_agent", Final (VStr "Score: 4"));
      ("bias_in_product_eval_agent", verdict product_eval_bias bias);
      ("bias_in_team_eval_agent", verdict team_eval_bias bias) ].

(** A top-level evaluator that calls the team tool once, then concludes. *)
Definition stub_team_only : LLM :=
  fun c =>
    if String.eqb (call_agent c) "startup_eval_agent"
    then match call_input c with
         | [_] => Some (ToolCall "team_evaluation_tool" submission)
         | _ => Some (Final (VStr "Team: 4"))
         end
    else stub_leaves false c.

(** ** How a computation may end *)



(** An agent without tools and without [output_type] whose handoff chains
    have at most [n] agents. *)
Inductive height_le : nat -> Agent -> Prop :=
| height_le_intro (n : nat) (a : Agent) :
    tools a = [] -> output_type a = None ->
    Forall (height_le n) (handoffs a) -> height_le (S n) a.

(** The guardrails of the program: each with its backing agent and the
    boolean field of the backing agent's output that it reads. *)
Definition program_guardrails : list (Guardrail * Agent * string) :=
  [ (pii_and_poli_guardrail, in_guardrail_agent, "political_and_pii");
    (bias_in_product_eval, bias_in_product_eval_agent, "product_eval_bias");
    (bias_in_team_eval, bias_in_team_eval_agent, "team_eval_bias");
    (sens_content_guardrail, out_pii_or_poli_guardrail_agent, "sens_cont");
    (hallucination_output_guardrail, hallucination_guardrail_agent, "hallucination");
    (extreme_language_guardrail, over_extreme_langauge_guardrail_agent, "extreme_wording");
    (bias_detection_guardrail, bias_guardrail_agent, "bias") ].

(** A backing agent of a guardrail: plain, with a one-field output class. *)
Definition backs (backing : Agent) (field : string) : Prop :=
  tools backing = [] /\ handoffs backing = [] /\
  input_guardrails backing = [] /\ output_guardrails backing = [] /\
  exists T, output_type backing = Some T /\ class_fields T = [field].

(** ** Tool dispatch *)

(** The agents a tool of [startup_eval_agent] calls: the leaf evaluator it
    wraps and the backing agent of that evaluator's guardrail. *)
Definition tool_callees (t : string) : list string :=
  if String.eqb t "product_evaluation_tool"
  then ["product_eval_agent"; "bias_in_product_eval_agent"]
  else if String.eqb t "market_evaluation_tool"
  then ["market_eval_agent"]
  else if String.eqb t "team_evaluation_tool"
  then ["team_eval_agent"; "bias_in_team_eval_agent"]
  else [].

(** An event that has nothing to do with tool [t]. *)
Definition avoids_tool (t : string) (e : Event) : Prop :=
  match e with
  | EInfer c => ~ In (call_agent c) (tool_callees t)
  | EToolInvoke t' => t' <> t
  end.


(** * Reasoning about runs *)

(** ** The model at work *)

(** No guardrail triggers: both passes run and their outputs are paired. *)
Example accepted_submission :
  agents_called
    (trace (evaluate_startup_gradio submission)
       (stub false false false false false (Final (VStr "Promising.")))) =
    [ "input_pii_poli_agent"; "orchestrator_agent"; "sensitive_content_agent";
      "hallucination_finder_agent"; "extreme_language_agent"; "bias_agent";
      "risk_finder_agent" ] /\
  outcome (evaluate_startup_gradio submission)
    (stub false false false false false (Final (VStr "Promising."))) =
    inr (VStr "Promising.", VStr "Solo founder: key-person risk.").
Proof. split; reflexivity. Qed.

(** After a handoff the output guardrails of the orchestrator do not run:
    the improvement agent has none. *)
Example handed_off_submission :
  agents_called
    (trace (evaluate_startup_gradio submission)
       (stub false true true true true (Handoff "startup_improvement_agent"))) =
    [ "input_pii_poli_agent"; "orchestrator_agent"; "startup_improvement_agent";
      "risk_finder_agent" ] /\
  outcome (evaluate_startup_gradio submission)
    (stub false true true true true (Handoff "startup_improvement_agent")) =
    inr (VStr "Sharpen the moat.", VStr "Solo founder: key-person risk.").
Proof. split; reflexivity. Qed.

(** Tool dispatch: only the tool the model selects runs. *)
Example team_tool_only :
  trace (Runner_run startup_eval_agent (VStr submission)) stub_team_only =
    [ EInfer (request startup_eval_agent [InputItem (VStr submission)]);
      EToolInvoke "team_evaluation_tool";
      EInfer (request team_eval_agent [InputItem (VStr submission)]);
      EInfer (request bias_in_team_eval_agent [InputItem (VStr "Score: 4")]);
      EInfer (request startup_eval_agent
                [ InputItem (VStr submission);
                  ToolCallItem "team_evaluation_tool" submission;
                  ToolOutputItem "team_evaluation_tool" "Score: 4" ]) ] /\
  outcome (Runner_run startup_eval_agent (VStr submission)) stub_team_only =
    inr {| final_output := VStr "Team: 4"; last_agent := "startup_eval_agent" |}.
Proof. split; reflexivity. Qed.

(** ** Unfolding equations of the monad *)

Lemma bind_raised {A B} (m : M A) (f : A -> M B) llm l e :
  m llm = (l, inl e) -> bind m f llm = (l, inl e).
Proof. intros H. unfold bind. now rewrite H. Qed.

Lemma bind_returned {A B} (m : M A) (f : A -> M B) llm l a :
  m llm = (l, inr a) ->
  bind m f llm = (l ++ fst (f a llm), snd (f a llm)).
Proof. intros H. unfold bind. rewrite H. now destruct (f a llm). Qed.

Lemma run_loop_S n current conv :
  run_loop (S n) current conv =
  (r <- infer current conv ;;
   match r with
   | NextStepFinalOutput out => ret (current, out)
   | NextStepRunAgain v => run_loop n current (conv ++ [MessageItem v])
   | NextStepHandoff target =>
       match find_handoff target (handoffs current) with
       | Some a => run_loop n a (conv ++ [HandoffItem (name current) target])
       | None => raise ModelBehaviorError
       end
   | NextStepToolCall t arg =>
       match find_tool t (tools current) with
       | Some f =>
           out <- invoke_tool f arg ;;
           run_loop n current (conv ++ [ToolCallItem t arg; ToolOutputItem t out])
       | None => raise ModelBehaviorError
       end
   end).
Proof. reflexivity. Qed.

(** A turn is one model call, whatever comes of it. *)
Lemma infer_trace a conv llm :
  trace (infer a conv) llm = [EInfer (request a conv)].
Proof.
  unfold trace, infer.
  destruct (llm (request a conv)) as [[v|target|t arg]|]; try reflexivity.
  destruct (read_final (output_type a) v); reflexivity.
Qed.

Lemma infer_split a conv llm :
  infer a conv llm = ([EInfer (request a conv)], outcome (infer a conv) llm).
Proof.
  rewrite <- (infer_trace a conv llm). unfold trace, outcome.
  now destruct (infer a conv llm).
Qed.

(** What a turn leads to, read off the reply of the model. *)
Lemma infer_outcome a conv llm :
  outcome (infer a conv) llm =
    match llm (request a conv) with
    | None => inl InferenceFailure
    | Some (Final v) =>
        match read_final (output_type a) v with
        | Output out => inr (NextStepFinalOutput out)
        | RunAgain => inr (NextStepRunAgain v)
        | Invalid => inl ModelBehaviorError
        end
    | Some (Handoff target) => inr (NextStepHandoff target)
    | Some (ToolCall t arg) => inr (NextStepToolCall t arg)
    end.
Proof.
  unfold outcome, infer.
  destruct (llm (request a conv)) as [[v|target|t arg]|]; try reflexivity.
  destruct (read_final (output_type a) v); reflexivity.
Qed.

(** The loop, turn by turn. *)
Lemma run_loop_turn n a conv llm :
  run_loop (S n) a conv llm =
    match outcome (infer a conv) llm with
    | inl e => ([EInfer (request a conv)], inl e)
    | inr (NextStepFinalOutput out) => ([EInfer (request a conv)], inr (a, out))
    | inr (NextStepRunAgain v) =>
        (EInfer (request a conv) :: trace (run_loop n a (conv ++ [MessageItem v])) llm,
         outcome (run_loop n a (conv ++ [MessageItem v])) llm)
    | inr (NextStepHandoff target) =>
        match find_handoff target (handoffs a) with
        | Some b =>
            (EInfer (request a conv)
               :: trace (run_loop n b (conv ++ [HandoffItem (name a) target])) llm,
             outcome (run_loop n b (conv ++ [HandoffItem (name a) target])) llm)
        | None => ([EInfer (request a conv)], inl ModelBehaviorError)
        end
    | inr (NextStepToolCall t arg) =>
        match find_tool t (tools a) with
        | Some f =>
            match outcome (invoke_tool f arg) llm with
            | inl e =>
                (EInfer (request a conv) :: trace (invoke_tool f arg) llm, inl e)
            | inr out =>
                (EInfer (request a conv)
                   :: trace (invoke_tool f arg) llm ++
                      trace (run_loop n a (conv ++ [ToolCallItem t arg;
                                                    ToolOutputItem t out])) llm,
                 outcome (run_loop n a (conv ++ [ToolCallItem t arg;
                                                 ToolOutputItem t out])) llm)
            end
        | None => ([EInfer (request a conv)], inl ModelBehaviorError)
        end
    end.
Proof.
  rewrite run_loop_S. unfold bind at 1. rewrite infer_split.
  destruct (outcome (infer a conv) llm) as [e|[out|v|target|t arg]];
    unfold trace, outcome; try reflexivity.
  - now destruct (run_loop n a (conv ++ [MessageItem v]) llm).
  - destruct (find_handoff target (handoffs a)) as [b|]; [|reflexivity].
    now destruct (run_loop n b _ llm).
  - destruct (find_tool t (tools a)) as [f|]; [|reflexivity].
    unfold bind. destruct (invoke_tool f arg llm) as [l1 [e|out]]; [reflexivity|].
    cbn [fst snd].
    destruct (run_loop n a (conv ++ [ToolCallItem t arg; ToolOutputItem t out]) llm).
    reflexivity.
Qed.

Lemma find_handoff_In target l a :
  find_handoff target l = Some a -> In a l /\ name a = target.
Proof.
  induction l as [|x r IH]; simpl; [discriminate|].
  destruct (String.eqb (name x) target) eqn:E.
  - intros [= <-]. apply String.eqb_eq in E. auto.
  - intros H. destruct (IH H). auto.
Qed.

Lemma find_tool_In t l f :
  find_tool t l = Some f -> In f l /\ tool_name f = t.
Proof.
  induction l as [|x r IH]; simpl; [discriminate|].
  destruct (String.eqb (tool_name x) t) eqn:E.
  - intros [= <-]. apply String.eqb_eq in E. auto.
  - intros H. destruct (IH H). auto.
Qed.

(** ** Properties of traces that compose along a run

    A property [Phi llm l s] of a trace [l] and of how the computation
    ended ([s]: the exception raised, if any) that holds of the empty trace
    and is kept by sequencing holds of a whole run as soon as it holds of
    the model calls, tool calls and guardrail functions of the agents the
    run can visit. *)
Section TraceProperty.

Variable Phi : LLM -> list Event -> option exn -> Prop.
Hypothesis Phi_nil : forall llm s, Phi llm [] s.
Hypothesis Phi_app : forall llm l1 l2 s,
  Phi llm l1 None -> Phi llm l2 s -> Phi llm (l1 ++ l2) s.

Lemma holds_ret {A} (a : A) : holds Phi (ret a).
Proof. intros llm. apply Phi_nil. Qed.

Lemma holds_raise {A} (e : exn) : holds Phi (@raise A e).
Proof. intros llm. apply Phi_nil. Qed.

Lemma holds_bind {A B} (m : M A) (f : A -> M B) :
  holds Phi m -> (forall a, holds Phi (f a)) -> holds Phi (bind m f).
Proof.
  intros Hm Hf llm. specialize (Hm llm).
  unfold trace, outcome, bind in *.
  destruct (m llm) as [l1 [e|a]]; simpl in *; [exact Hm|].
  specialize (Hf a llm). unfold trace, outcome in Hf.
  destruct (f a llm) as [l2 r]; simpl in *. now apply Phi_app.
Qed.

(** When [Phi] holds of [m] and [m] returns, what follows runs under the knowledge of
    the value returned. *)
Lemma holds_bind_dep {A B} (m : M A) (f : A -> M B) (Q : A -> Prop) :
  holds Phi m ->
  (forall llm a, outcome m llm = inr a -> Q a) ->
  (forall a, Q a -> holds Phi (f a)) -> holds Phi (bind m f).
Proof.
  intros Hm HQ Hf llm. specialize (Hm llm). specialize (HQ llm).
  unfold trace, outcome, bind in *.
  destruct (m llm) as [l1 [e|a]]; simpl in *; [exact Hm|].
  specialize (Hf a (HQ a eq_refl) llm). unfold trace, outcome in Hf.
  destruct (f a llm) as [l2 r]; simpl in *. now apply Phi_app.
Qed.

Lemma holds_try_except {A} (m : M A) (h : exn -> option (M A)) :
  (forall llm l e k, h e = Some k -> Phi llm l (Some e) -> Phi llm l None) ->
  holds Phi m -> (forall e k, h e = Some k -> holds Phi k) ->
  holds Phi (try_except m h).
Proof.
  intros Hc Hm Hh llm. specialize (Hm llm).
  unfold trace, outcome, try_except in *.
  destruct (m llm) as [l1 [e|a]]; simpl in *; [|exact Hm].
  destruct (h e) as [k|] eqn:E; [|exact Hm].
  specialize (Hh e k E llm). unfold trace, outcome in Hh.
  destruct (k llm) as [l2 r]; simpl in *.
  apply Phi_app; [now apply (Hc llm l1 e k)|exact Hh].
Qed.

Lemma respects_infer a conv : respects Phi a -> holds Phi (infer a conv).
Proof. now destruct 1. Qed.

Lemma respects_handoff a target b :
  respects Phi a -> find_handoff target (handoffs a) = Some b -> respects Phi b.
Proof.
  destruct 1 as [a _ _ Hh _ _]. intros Hf.
  apply find_handoff_In in Hf as [Hin _].
  rewrite Forall_forall in Hh. now apply Hh.
Qed.

Lemma holds_run_guardrails tripped gs v :
  (forall g, In g gs -> holds Phi (guardrail_function g v)) ->
  holds Phi (run_guardrails tripped gs v).
Proof.
  induction gs as [|g r IH]; intros H; simpl.
  - apply holds_ret.
  - apply holds_bind; [apply H; now left|].
    intros o. destruct (tripwire_triggered o).
    + apply holds_raise.
    + apply IH. intros g' Hg'. apply H. now right.
Qed.

Lemma holds_run_loop n : forall a conv,
  respects Phi a ->
  holds Phi (run_loop n a conv) /\
  (forall llm r, outcome (run_loop n a conv) llm = inr r -> respects Phi (fst r)).
Proof.
  induction n as [|n IH]; intros a conv Ha.
  - split; [apply holds_raise|]. intros llm r. discriminate.
  - rewrite run_loop_S. split.
    + apply holds_bind; [now apply respects_infer|].
      intros [out|v|target|t arg].
      * apply holds_ret.
      * now apply IH.
      * destruct (find_handoff target (handoffs a)) as [b|] eqn:E;
          [|apply holds_raise].
        apply IH. eapply respects_handoff; eauto.
      * destruct (find_tool t (tools a)) as [f|] eqn:E; [|apply holds_raise].
        apply holds_bind.
        -- destruct Ha as [a _ Ht _ _ _]. apply Ht.
           now apply find_tool_In in E as [? _].
        -- intros out. now apply IH.
    + intros llm r. unfold outcome, bind.
      destruct (infer a conv llm) as [l1 [e|[out|v|target|t arg]]]; simpl;
        try discriminate.
      * intros [= <-]. exact Ha.
      * destruct (IH a (conv ++ [MessageItem v]) Ha) as [_ H2].
        specialize (H2 llm r). unfold outcome in H2.
        destruct (run_loop n a _ llm) as [l2 r2]; simpl in *. exact H2.
      * destruct (find_handoff target (handoffs a)) as [b|] eqn:E;
          [|simpl; discriminate].
        assert (Hb : respects Phi b) by (eapply respects_handoff; eauto).
        destruct (IH b (conv ++ [HandoffItem (name a) target]) Hb) as [_ H2].
        specialize (H2 llm r). unfold outcome in H2.
        destruct (run_loop n b _ llm) as [l2 r2]; simpl in *. exact H2.
      * destruct (find_tool t (tools a)) as [f|] eqn:E; [|simpl; discriminate].
        unfold bind. destruct (invoke_tool f arg llm) as [l2 [e|out]]; simpl;
          try discriminate.
        destruct (IH a (conv ++ [ToolCallItem t arg; ToolOutputItem t out]) Ha)
          as [_ H2].
        specialize (H2 llm r). unfold outcome in H2.
        destruct (run_loop n a _ llm) as [l3 r3]; simpl in *. exact H2.
Qed.

Lemma holds_Runner_run a v : respects Phi a -> holds Phi (Runner_run a v).
Proof.
  intros Ha. unfold Runner_run.
  apply holds_bind.
  { apply holds_run_guardrails. destruct Ha as [a _ _ _ Hi _].
    intros g Hg. now apply Hi. }
  intros _.
  apply holds_bind_dep with (Q := fun r => respects Phi (fst r)).
  - now apply holds_run_loop.
  - intros llm r. now apply holds_run_loop.
  - intros r Hr. apply holds_bind; [|intros _; apply holds_ret].
    apply holds_run_guardrails. destruct Hr as [b _ _ _ _ Ho].
    intros g Hg. now apply Ho.
Qed.

(** A guardrail function of the program: run the backing agent, read the
    boolean field. *)
Lemma holds_guardrail_body backing field v :
  respects Phi backing ->
  holds Phi (result <- Runner_run backing v ;;
         t <- getattr (final_output result) field ;;
         ret {| output_info := final_output result; tripwire_triggered := t |}).
Proof.
  intros Hb. apply holds_bind; [now apply holds_Runner_run|].
  intros result. apply holds_bind; [|intros t; apply holds_ret].
  unfold getattr. destruct (final_output result); try apply holds_raise.
  destruct (lookup_field field fields); [apply holds_ret|apply holds_raise].
Qed.

End TraceProperty.

(** ** First instance: every event of the trace satisfies [P] *)

Lemma within_nil P : forall llm s, within P llm [] s.
Proof. intros. apply Forall_nil. Qed.

Lemma within_app P : forall llm l1 l2 s,
  within P llm l1 None -> within P llm l2 s -> within P llm (l1 ++ l2) s.
Proof. unfold within. intros. apply Forall_app. auto. Qed.

Lemma within_infer (P : Event -> Prop) a conv :
  P (EInfer (request a conv)) -> holds (within P) (infer a conv).
Proof.
  intros HP llm. unfold within. rewrite infer_trace. auto.
Qed.

(** ** Second instance: a failed model call decides how the run ends *)




(** ** Proving that a concrete agent respects a property *)

Ltac respects_guardrails Phi_nil Phi_app Hin rec :=
  simpl in Hin;
  repeat (destruct Hin as [<-|Hin];
          [apply (holds_guardrail_body _ Phi_nil Phi_app); rec|]);
  contradiction.

Ltac prove_respects Phi_nil Phi_app inf :=
  apply respects_intro;
  [ intros ?; inf
  | simpl; intros ? ? Hin; contradiction
  | simpl;
    repeat (apply Forall_cons; [prove_respects Phi_nil Phi_app inf|]);
    apply Forall_nil
  | let Hin := fresh "Hin" in
    intros ? ? Hin;
    respects_guardrails Phi_nil Phi_app Hin
      ltac:(prove_respects Phi_nil Phi_app inf)
  | let Hin := fresh "Hin" in
    intros ? ? Hin;
    respects_guardrails Phi_nil Phi_app Hin
      ltac:(prove_respects Phi_nil Phi_app inf) ].

Lemma orchestrator_respects_callees :
  respects (within (calls_only orchestrator_callees)) orchestrator_agent.
Proof.
  prove_respects (within_nil (calls_only orchestrator_callees))
                 (within_app (calls_only orchestrator_callees))
                 ltac:(apply within_infer; simpl; tauto).
Qed.

Lemma risk_finder_respects_callees :
  respects (within (calls_only ["risk_finder_agent"])) risk_finder_agent.
Proof.
  prove_respects (within_nil (calls_only ["risk_finder_agent"]))
                 (within_app (calls_only ["risk_finder_agent"]))
                 ltac:(apply within_infer; simpl; tauto).
Qed.



(** ** The driver, case by case *)

Lemma evaluate_returned llm input r1 r2 :
  outcome (Runner_run orchestrator_agent (VStr input)) llm = inr r1 ->
  outcome (Runner_run risk_finder_agent (VStr input)) llm = inr r2 ->
  outcome (evaluate_startup_gradio input) llm =
    inr (final_output r1, py_or (final_output r2) (VStr no_risks_message)).
Proof.
  unfold outcome, evaluate_startup_gradio, try_except, bind.
  destruct (Runner_run orchestrator_agent (VStr input) llm) as [l1 [e|a]];
    simpl; [discriminate|intros [= ->]].
  destruct (Runner_run risk_finder_agent (VStr input) llm) as [l2 [e|b]];
    simpl; [discriminate|intros [= ->]]. reflexivity.
Qed.

Lemma evaluate_output_tripped llm input g o :
  outcome (Runner_run orchestrator_agent (VStr input)) llm =
    inl (OutputGuardrailTripwireTriggered g o) ->
  evaluate_startup_gradio input llm =
    (trace (Runner_run orchestrator_agent (VStr input)) llm,
     inr (VStr guardrail_tripped_message, VStr "")).
Proof.
  unfold outcome, trace, evaluate_startup_gradio, try_except, bind.
  destruct (Runner_run orchestrator_agent (VStr input) llm) as [l1 [e|a]];
    simpl; [intros [= ->]|discriminate].
  simpl. now rewrite app_nil_r.
Qed.

Lemma evaluate_orchestrator_raised llm input e :
  uncaught e ->
  outcome (Runner_run orchestrator_agent (VStr input)) llm = inl e ->
  evaluate_startup_gradio input llm =
    (trace (Runner_run orchestrator_agent (VStr input)) llm, inl e).
Proof.
  unfold outcome, trace, evaluate_startup_gradio, try_except, bind.
  destruct (Runner_run orchestrator_agent (VStr input) llm) as [l1 [e'|a]];
    simpl; [intros He [= ->]|discriminate].
  destruct e; simpl in *; try reflexivity. contradiction.
Qed.

(** The trace of the driver is the trace of the two runs it makes. *)
Lemma evaluate_within (P : Event -> Prop) input :
  respects (within P) orchestrator_agent ->
  respects (within P) risk_finder_agent ->
  holds (within P) (evaluate_startup_gradio input).
Proof.
  intros Ho Hr. unfold evaluate_startup_gradio.
  pose proof (within_nil P) as Hnil. pose proof (within_app P) as Happ.
  apply holds_try_except; [exact Happ|intros; assumption| |].
  - apply holds_bind; [exact Happ|now apply holds_Runner_run|].
    intros r1. apply holds_bind; [exact Happ|now apply holds_Runner_run|].
    intros r2. now apply holds_ret.
  - intros e k. destruct e; try discriminate. intros [= <-].
    now apply holds_ret.
Qed.

(** ** Plain agents, guardrail functions and the calls of a run *)

Lemma agents_called_app l1 l2 :
  agents_called (l1 ++ l2) = agents_called l1 ++ agents_called l2.
Proof. unfold agents_called. apply flat_map_app. Qed.

Lemma agents_called_within names l :
  Forall (calls_only names) l ->
  forall n, In n (agents_called l) -> In n names.
Proof.
  induction 1 as [|e l He Hl IH]; simpl; [contradiction|].
  intros n Hn. apply in_app_or in Hn as [Hn|Hn]; [|now apply IH].
  destruct e as [c|t]; simpl in *; [|contradiction].
  destruct Hn as [<-|[]]. exact He.
Qed.

(** A run of an agent that has no tools, no handoffs, no guardrails and no
    [output_type] is one model call. *)
Lemma Runner_run_plain a v llm :
  tools a = [] -> handoffs a = [] -> output_type a = None ->
  input_guardrails a = [] -> output_guardrails a = [] ->
  Runner_run a v llm =
    ([EInfer (request a [InputItem v])],
     match llm (request a [InputItem v]) with
     | None => inl InferenceFailure
     | Some (Final x) =>
         inr {| final_output := plain_output x; last_agent := name a |}
     | Some _ => inl ModelBehaviorError
     end).
Proof.
  intros Ht Hh Hty Hi Ho. unfold Runner_run, DEFAULT_MAX_TURNS.
  rewrite Hi. unfold bind at 1. cbn [run_guardrails ret app].
  unfold bind at 1. rewrite run_loop_turn, infer_outcome, Hty.
  destruct (llm (request a [InputItem v])) as [[x|t|t arg]|]; simpl.
  - rewrite Ho. reflexivity.
  - rewrite Hh. reflexivity.
  - rewrite Ht. reflexivity.
  - reflexivity.
Qed.

(** The calls of the input guardrail are calls of its backing agent. *)
Lemma input_guardrail_calls v llm :
  Forall (calls_only ["input_pii_poli_agent"])
    (trace (guardrail_function pii_and_poli_guardrail v) llm).
Proof.
  apply (holds_guardrail_body _ (within_nil _) (within_app _)).
  prove_respects (within_nil (calls_only ["input_pii_poli_agent"]))
                 (within_app (calls_only ["input_pii_poli_agent"]))
                 ltac:(apply within_infer; simpl; tauto).
Qed.

(** When a guardrail of a chain of one trips, the chain raises. *)
Lemma run_guardrails_single_tripped tripped g v llm o :
  outcome (guardrail_function g v) llm = inr o ->
  tripwire_triggered o = true ->
  run_guardrails tripped [g] v llm =
    (trace (guardrail_function g v) llm, inl (tripped (guardrail_name g) o)).
Proof.
  unfold outcome, trace. simpl. unfold bind.
  destruct (guardrail_function g v llm) as [l [e|o']]; simpl;
    [discriminate|intros [= ->] ->]. simpl. now rewrite app_nil_r.
Qed.

Lemma orchestrator_input_rejected llm input o :
  outcome (guardrail_function pii_and_poli_guardrail (VStr input)) llm = inr o ->
  tripwire_triggered o = true ->
  Runner_run orchestrator_agent (VStr input) llm =
    (trace (guardrail_function pii_and_poli_guardrail (VStr input)) llm,
     inl (InputGuardrailTripwireTriggered "pii_and_poli_guardrail" o)).
Proof.
  intros Ho Ht. unfold Runner_run.
  erewrite bind_raised; [reflexivity|].
  change (input_guardrails orchestrator_agent) with [pii_and_poli_guardrail].
  apply run_guardrails_single_tripped; eassumption.
Qed.



Lemma evaluate_calls_only input :
  holds (within (calls_only entry_point_callees)) (evaluate_startup_gradio input).
Proof.
  apply evaluate_within.
  - prove_respects (within_nil (calls_only entry_point_callees))
                   (within_app (calls_only entry_point_callees))
                   ltac:(apply within_infer; simpl; tauto).
  - prove_respects (within_nil (calls_only entry_point_callees))
                   (within_app (calls_only entry_point_callees))
                   ltac:(apply within_infer; simpl; tauto).
Qed.

Lemma evaluate_fixed_model input :
  holds (within fixed_model) (evaluate_startup_gradio input).
Proof.
  apply evaluate_within.
  - prove_respects (within_nil fixed_model) (within_app fixed_model)
                   ltac:(apply within_infer; simpl; tauto).
  - prove_respects (within_nil fixed_model) (within_app fixed_model)
                   ltac:(apply within_infer; simpl; tauto).
Qed.

(** ** Output check and handoff chains *)

Lemma plain_output_text t : plain_output (VStr t) = VStr t.
Proof.
  unfold plain_output, py_or, truthy.
  destruct (String.eqb t "") eqn:E; [|reflexivity].
  apply String.eqb_eq in E. now subst.
Qed.

Lemma run_loop_final n a conv llm x out :
  llm (request a conv) = Some (Final x) ->
  read_final (output_type a) x = Output out ->
  run_loop (S n) a conv llm = ([EInfer (request a conv)], inr (a, out)).
Proof.
  intros H Hc. now rewrite run_loop_turn, infer_outcome, H, Hc.
Qed.

Lemma Runner_run_after_loop a v llm last out :
  outcome (run_guardrails InputGuardrailTripwireTriggered
             (input_guardrails a) v) llm = inr tt ->
  outcome (run_loop DEFAULT_MAX_TURNS a [InputItem v]) llm = inr (last, out) ->
  outcome (Runner_run a v) llm =
    match outcome (run_guardrails OutputGuardrailTripwireTriggered
                     (output_guardrails last) out) llm with
    | inl e => inl e
    | inr _ => inr {| final_output := out; last_agent := name last |}
    end.
Proof.
  unfold outcome, Runner_run, bind.
  destruct (run_guardrails _ (input_guardrails a) v llm) as [l0 [e|u]];
    simpl; [discriminate|intros _].
  destruct (run_loop DEFAULT_MAX_TURNS a [InputItem v] llm) as [l1 [e|r]];
    simpl; [discriminate|intros [= ->]]. simpl.
  destruct (run_guardrails _ (output_guardrails last) out llm) as [l2 [e|u']];
    reflexivity.
Qed.

Lemma run_guardrails_single tripped g v llm o :
  outcome (guardrail_function g v) llm = inr o ->
  outcome (run_guardrails tripped [g] v) llm =
    if tripwire_triggered o then inl (tripped (guardrail_name g) o) else inr tt.
Proof.
  unfold outcome. simpl. unfold bind.
  destruct (guardrail_function g v llm) as [l [e|o']]; simpl;
    [discriminate|intros [= ->]].
  destruct (tripwire_triggered o); reflexivity.
Qed.


Lemma toolless_handoff a target b :
  toolless a -> find_handoff target (handoffs a) = Some b ->
  toolless b /\ In b (handoffs a).
Proof.
  destruct 1 as [a _ _ Hh]. intros Hf.
  apply find_handoff_In in Hf as [Hin _].
  rewrite Forall_forall in Hh. auto.
Qed.

(** A turn of an agent without tools and without [output_type]. *)
Lemma toolless_turn n a conv llm :
  toolless a ->
  run_loop (S n) a conv llm =
    match llm (request a conv) with
    | None => ([EInfer (request a conv)], inl InferenceFailure)
    | Some (Final v) => ([EInfer (request a conv)], inr (a, plain_output v))
    | Some (Handoff target) =>
        match find_handoff target (handoffs a) with
        | Some b =>
            (EInfer (request a conv)
               :: trace (run_loop n b (conv ++ [HandoffItem (name a) target])) llm,
             outcome (run_loop n b (conv ++ [HandoffItem (name a) target])) llm)
        | None => ([EInfer (request a conv)], inl ModelBehaviorError)
        end
    | Some (ToolCall t arg) => ([EInfer (request a conv)], inl ModelBehaviorError)
    end.
Proof.
  intros [a' Ht Hty _]. rewrite run_loop_turn, infer_outcome, Hty.
  destruct (llm (request a' conv)) as [[v|target|t arg]|]; try reflexivity.
  rewrite Ht. reflexivity.
Qed.

(** Without tools, the agents a loop calls form a handoff chain. *)
Lemma run_loop_chain n : forall a conv llm,
  toolless a ->
  agents_called (trace (run_loop n a conv) llm) = [] \/
  In (agents_called (trace (run_loop n a conv) llm)) (handoff_paths a).
Proof.
  induction n as [|n IH]; intros a conv llm Ha; [now left|right].
  assert (Hfirst : In [name a] (handoff_paths a)) by (destruct a; now left).
  unfold trace at 1. rewrite (toolless_turn _ _ _ _ Ha).
  destruct (llm (request a conv)) as [[v|target|t arg]|]; simpl; auto.
  destruct (find_handoff target (handoffs a)) as [b|] eqn:E; simpl; auto.
  destruct (toolless_handoff _ _ _ Ha E) as [Hb Hin].
  specialize (IH b (conv ++ [HandoffItem (name a) target]) llm Hb).
  destruct IH as [-> | IH]; auto.
  destruct a; simpl in *. right. apply in_map.
  apply in_flat_map. eauto.
Qed.

(** A loop of agents without tools and without [output_type] that returns
    ends on a model call of the agent it returns, and what it returns is
    the text of the reply to that call. *)
Lemma run_loop_returns_last_reply n : forall a conv llm last out,
  toolless a ->
  outcome (run_loop n a conv) llm = inr (last, out) ->
  exists l0 conv' v,
    trace (run_loop n a conv) llm = l0 ++ [EInfer (request last conv')] /\
    llm (request last conv') = Some (Final v) /\
    out = plain_output v.
Proof.
  induction n as [|n IH]; intros a conv llm last out Ha; [discriminate|].
  unfold outcome, trace. rewrite (toolless_turn _ _ _ _ Ha).
  destruct (llm (request a conv)) as [[v|target|t arg]|] eqn:E; simpl;
    try discriminate.
  - intros [= <- <-]. exists [], conv, v. auto.
  - destruct (find_handoff target (handoffs a)) as [b|] eqn:Ef; simpl;
      [|discriminate].
    destruct (toolless_handoff _ _ _ Ha Ef) as [Hb _].
    intros H.
    destruct (IH b (conv ++ [HandoffItem (name a) target]) llm last out Hb H)
      as (l0 & conv' & v & -> & Hl & Hout).
    exists (EInfer (request a conv) :: l0), conv', v. auto.
Qed.

(** A loop that has a turn left starts with a model call of its agent. *)
Lemma run_loop_first_call n a conv llm :
  exists l, trace (run_loop (S n) a conv) llm = EInfer (request a conv) :: l.
Proof.
  unfold trace at 1. rewrite run_loop_turn.
  destruct (outcome (infer a conv) llm) as [e|[out|v|target|t arg]]; simpl;
    eauto.
  - destruct (find_handoff target (handoffs a)); simpl; eauto.
  - destruct (find_tool t (tools a)); simpl; eauto.
    destruct (outcome (invoke_tool f arg) llm); simpl; eauto.
Qed.

Lemma orchestrator_toolless : toolless orchestrator_agent.
Proof. repeat (constructor; simpl; try reflexivity). Qed.

(** A leaf evaluator: no input guardrail, no handoff, no tool; its text
    goes through its output guardrails, if it has any. *)
Lemma leaf_run a llm input t :
  input_guardrails a = [] ->
  output_type a = None ->
  llm (request a [InputItem (VStr input)]) = Some (Final (VStr t)) ->
  outcome (Runner_run a (VStr input)) llm =
    match outcome (run_guardrails OutputGuardrailTripwireTriggered
                     (output_guardrails a) (VStr t)) llm with
    | inl e => inl e
    | inr _ => inr {| final_output := VStr t; last_agent := name a |}
    end.
Proof.
  intros Hi Ht Hr. apply Runner_run_after_loop.
  - now rewrite Hi.
  - unfold outcome, DEFAULT_MAX_TURNS.
    rewrite (run_loop_final _ _ _ _ _ (VStr t) Hr); [reflexivity|].
    rewrite Ht. unfold read_final. now rewrite plain_output_text.
Qed.

(** * The claims *)

(** C1 (as the code has it): when both passes complete, the risk field is
    the Risk Finder's output, or the fixed fallback when that output is
    empty; when the Orchestrator pass ends in an output-guardrail trip, the
    risk field is the empty string and the Risk Finder is not run at all. *)
Theorem C1_risk_field_follows_orchestrator_outcome llm input :
  (forall r1 r2,
     outcome (Runner_run orchestrator_agent (VStr input)) llm = inr r1 ->
     outcome (Runner_run risk_finder_agent (VStr input)) llm = inr r2 ->
     outcome (evaluate_startup_gradio input) llm =
       inr (final_output r1, py_or (final_output r2) (VStr no_risks_message))) /\
  (forall g o,
     outcome (Runner_run orchestrator_agent (VStr input)) llm =
       inl (OutputGuardrailTripwireTriggered g o) ->
     outcome (evaluate_startup_gradio input) llm =
       inr (VStr guardrail_tripped_message, VStr "") /\
     ~ In "risk_finder_agent"
          (agents_called (trace (evaluate_startup_gradio input) llm))).
Proof.
  split.
  - intros r1 r2. apply evaluate_returned.
  - intros g o H. pose proof (evaluate_output_tripped _ _ _ _ H) as E.
    unfold outcome, trace. rewrite E. simpl. split; [reflexivity|].
    intros Hin.
    pose proof (holds_Runner_run _ (within_nil _) (within_app _) _ (VStr input)
                  orchestrator_respects_callees llm) as Hw.
    apply (agents_called_within _ _ Hw) in Hin.
    simpl in Hin. repeat (destruct Hin as [Hin|Hin]; [discriminate|]).
    exact Hin.
Qed.

Lemma C1_witness :
  (outcome (Runner_run orchestrator_agent (VStr submission))
     (stub false false false false false (Final (VStr "Promising."))) =
     inr {| final_output := VStr "Promising."; last_agent := "orchestrator_agent" |} /\
   outcome (Runner_run risk_finder_agent (VStr submission))
     (stub false false false false false (Final (VStr "Promising."))) =
     inr {| final_output := VStr "Solo founder: key-person risk.";
            last_agent := "risk_finder_agent" |} /\
   outcome (evaluate_startup_gradio submission)
     (stub false false false false false (Final (VStr "Promising."))) =
     inr (VStr "Promising.", VStr "Solo founder: key-person risk.")) /\
  (outcome (Runner_run orchestrator_agent (VStr submission))
     (stub false false true false false (Final (VStr "Promising."))) =
     inl (OutputGuardrailTripwireTriggered "hallucination_output_guardrail"
            {| output_info := VObj "hallucination_guardrail" [("hallucination", true)];
               tripwire_triggered := true |}) /\
   outcome (evaluate_startup_gradio submission)
     (stub false false true false false (Final (VStr "Promising."))) =
     inr (VStr guardrail_tripped_message, VStr "")).
Proof.
  split.
  - split; [reflexivity|split; [reflexivity|]].
    exact (proj1 (C1_risk_field_follows_orchestrator_outcome
                    (stub false false false false false (Final (VStr "Promising.")))
                    submission) _ _ eq_refl eq_refl).
  - split; [reflexivity|].
    exact (proj1 (proj2 (C1_risk_field_follows_orchestrator_outcome
                    (stub false false true false false (Final (VStr "Promising.")))
                    submission) _ _ eq_refl)).
Defined.

(** C1, as stated, fails: with a Risk Finder stubbed to a non-empty result
    and an output guardrail that trips, the risk field is empty. *)
Lemma C1_counterexample :
  outcome (Runner_run risk_finder_agent (VStr submission))
    (stub false false true false false (Final (VStr "Promising."))) =
    inr {| final_output := VStr "Solo founder: key-person risk.";
           last_agent := "risk_finder_agent" |} /\
  outcome (evaluate_startup_gradio submission)
    (stub false false true false false (Final (VStr "Promising."))) =
    inr (VStr "Guardrail tripped – sensitive content detected. Please revise your input.",
         VStr "").
Proof. split; reflexivity. Qed.

(** C2 (as the code has it): when the input guardrail trips, nothing
    further is processed: no delegation target is called, no output
    guardrail is evaluated, and the Risk Finder is not run either. *)
Theorem C2_input_rejection_stops_all_processing llm input o :
  outcome (guardrail_function pii_and_poli_guardrail (VStr input)) llm = inr o ->
  tripwire_triggered o = true ->
  forall n,
    In n [ "startup_improvement_agent"; "differentiation_analyzer_agent";
           "vision_agent"; "scalability_agent"; "sensitive_content_agent";
           "hallucination_finder_agent"; "extreme_language_agent"; "bias_agent";
           "risk_finder_agent" ] ->
    ~ In n (agents_called (trace (evaluate_startup_gradio input) llm)).
Proof.
  intros Ho Ht n Hn.
  pose proof (orchestrator_input_rejected llm input o Ho Ht) as E.
  assert (Hr : outcome (Runner_run orchestrator_agent (VStr input)) llm =
               inl (InputGuardrailTripwireTriggered "pii_and_poli_guardrail" o))
    by (unfold outcome; now rewrite E).
  unfold trace.
  rewrite (evaluate_orchestrator_raised llm input
             (InputGuardrailTripwireTriggered "pii_and_poli_guardrail" o) I Hr).
  unfold trace at 1. rewrite E. cbn [fst]. intros Hin.
  apply (agents_called_within _ _ (input_guardrail_calls (VStr input) llm)) in Hin.
  simpl in Hin, Hn. destruct Hin as [<-|[]].
  repeat (destruct Hn as [Hn|Hn]; [discriminate|]). exact Hn.
Qed.

Lemma C2_witness :
  outcome (guardrail_function pii_and_poli_guardrail (VStr "Reach me at jo@acme.io"))
    (stub true false false false false (Final (VStr "Promising."))) =
    inr {| output_info := VObj "in_pii_and_poli_guardrail" [("political_and_pii", true)];
           tripwire_triggered := true |} /\
  ~ In "risk_finder_agent"
       (agents_called
          (trace (evaluate_startup_gradio "Reach me at jo@acme.io")
             (stub true false false false false (Final (VStr "Promising."))))).
Proof.
  split; [reflexivity|].
  apply (C2_input_rejection_stops_all_processing
           (stub true false false false false (Final (VStr "Promising.")))
           "Reach me at jo@acme.io" _ eq_refl eq_refl).
  simpl. tauto.
Defined.

(** C2, as stated, fails: when the input guardrail trips, the driver
    returns no pair at all (the exception is not the one it handles) and
    the Risk Finder, stubbed to a non-empty result, is not run. *)
Lemma C2_counterexample :
  outcome (evaluate_startup_gradio "Reach me at jo@acme.io")
    (stub true false false false false (Final (VStr "Promising."))) =
    inl (InputGuardrailTripwireTriggered "pii_and_poli_guardrail"
           {| output_info := VObj "in_pii_and_poli_guardrail" [("political_and_pii", true)];
              tripwire_triggered := true |}) /\
  ~ In "risk_finder_agent"
       (agents_called
          (trace (evaluate_startup_gradio "Reach me at jo@acme.io")
             (stub true false false false false (Final (VStr "Promising."))))).
Proof.
  split; [reflexivity|].
  intros [H|[]]. discriminate.
Qed.

(** C3 (as the code has it): a handoff transfers control for good.  The
    agents a run of the orchestrator calls form one chain of the handoff
    graph, each agent is called at most once (so a delegator is never
    called again once its target has run), and the final output of the run
    is the reply of the last agent of the chain: its text as it is, and
    the empty string when that reply carries no text. *)
Theorem C3_handoff_transfers_control llm input :
  In (agents_called
        (trace (run_loop DEFAULT_MAX_TURNS orchestrator_agent
                  [InputItem (VStr input)]) llm))
     (handoff_paths orchestrator_agent) /\
  NoDup (agents_called
           (trace (run_loop DEFAULT_MAX_TURNS orchestrator_agent
                     [InputItem (VStr input)]) llm)) /\
  (forall last out,
     outcome (run_loop DEFAULT_MAX_TURNS orchestrator_agent
                [InputItem (VStr input)]) llm = inr (last, out) ->
     exists l0 conv v,
       trace (run_loop DEFAULT_MAX_TURNS orchestrator_agent
                [InputItem (VStr input)]) llm =
         l0 ++ [EInfer (request last conv)] /\
       llm (request last conv) = Some (Final v) /\
       out = plain_output v /\
       (forall t, v = VStr t -> out = VStr t)).
Proof.
  assert (Hchain : In (agents_called
                         (trace (run_loop DEFAULT_MAX_TURNS orchestrator_agent
                                   [InputItem (VStr input)]) llm))
                      (handoff_paths orchestrator_agent)).
  { destruct (run_loop_chain DEFAULT_MAX_TURNS orchestrator_agent
                [InputItem (VStr input)] llm orchestrator_toolless) as [H|H];
      [|exact H].
    exfalso. unfold DEFAULT_MAX_TURNS in H.
    destruct (run_loop_first_call 9 orchestrator_agent
                [InputItem (VStr input)] llm) as [l Hl].
    rewrite Hl in H. discriminate. }
  split; [exact Hchain|]. split.
  - revert Hchain.
    generalize (agents_called
                  (trace (run_loop DEFAULT_MAX_TURNS orchestrator_agent
                            [InputItem (VStr input)]) llm)).
    intros l Hl. simpl in Hl.
    repeat (destruct Hl as [<-|Hl];
            [repeat constructor; simpl; intuition discriminate|]).
    destruct Hl.
  - intros last out Hr.
    destruct (run_loop_returns_last_reply _ _ _ _ _ _ orchestrator_toolless Hr)
      as (l0 & conv & v & Htr & Hl & Hout).
    exists l0, conv, v. repeat split; try assumption.
    intros t ->. rewrite Hout. apply plain_output_text.
Qed.

(** C3, at a concrete run: the orchestrator hands off, the improvement
    agent answers, and that answer is the final output. *)
Lemma C3_witness :
  outcome (run_loop DEFAULT_MAX_TURNS orchestrator_agent [InputItem (VStr submission)])
    (stub false false false false false (Handoff "startup_improvement_agent")) =
    inr (startup_improvement_agent, VStr "Sharpen the moat.") /\
  exists l0 conv v,
    trace (run_loop DEFAULT_MAX_TURNS orchestrator_agent [InputItem (VStr submission)])
      (stub false false false false false (Handoff "startup_improvement_agent")) =
      l0 ++ [EInfer (request startup_improvement_agent conv)] /\
    stub false false false false false (Handoff "startup_improvement_agent")
      (request startup_improvement_agent conv) = Some (Final v) /\
    VStr "Sharpen the moat." = plain_output v /\
    (forall t, v = VStr t -> VStr "Sharpen the moat." = VStr t).
Proof.
  split; [reflexivity|].
  exact (proj2 (proj2 (C3_handoff_transfers_control
                         (stub false false false false false
                            (Handoff "startup_improvement_agent"))
                         submission)) _ _ eq_refl).
Defined.

(** C3, as stated, fails: after the handoff the orchestrator is not called
    again, and the run ends with the target as its last agent and the
    target's reply as its output. *)
Lemma C3_counterexample :
  agents_called
    (trace (Runner_run orchestrator_agent (VStr submission))
       (stub false false false false false (Handoff "startup_improvement_agent"))) =
    ["input_pii_poli_agent"; "orchestrator_agent"; "startup_improvement_agent"] /\
  outcome (Runner_run orchestrator_agent (VStr submission))
    (stub false false false false false (Handoff "startup_improvement_agent")) =
    inr {| final_output := VStr "Sharpen the moat.";
           last_agent := "startup_improvement_agent" |}.
Proof. split; reflexivity. Qed.




(** C5 (as the code has it): whichever output guardrail trips, and with
    whatever details, the feedback is one and the same fixed text, which
    does not depend on the flagged content. *)
Theorem C5_rejection_text_is_fixed llm input g o :
  outcome (Runner_run orchestrator_agent (VStr input)) llm =
    inl (OutputGuardrailTripwireTriggered g o) ->
  outcome (evaluate_startup_gradio input) llm =
    inr (VStr "Guardrail tripped – sensitive content detected. Please revise your input.",
         VStr "").
Proof.
  intros H. unfold outcome. now rewrite (evaluate_output_tripped _ _ _ _ H).
Qed.

Lemma C5_witness :
  outcome (Runner_run orchestrator_agent (VStr submission))
    (stub false false false false true (Final (VStr "Promising."))) =
    inl (OutputGuardrailTripwireTriggered "bias_detection_guardrail"
           {| output_info := VObj "bias_guardrail" [("bias", true)];
              tripwire_triggered := true |}) /\
  outcome (evaluate_startup_gradio submission)
    (stub false false false false true (Final (VStr "Promising."))) =
    inr (VStr "Guardrail tripped – sensitive content detected. Please revise your input.",
         VStr "").
Proof.
  split; [reflexivity|].
  exact (C5_rejection_text_is_fixed
           (stub false false false false true (Final (VStr "Promising.")))
           submission _ _ eq_refl).
Defined.

(** C5, as stated, fails: the hallucination guardrail and the bias
    guardrail trip on different runs and the feedback is the same text,
    which names sensitive content in both. *)
Lemma C5_counterexample :
  outcome (Runner_run orchestrator_agent (VStr submission))
    (stub false false true false false (Final (VStr "Promising."))) =
    inl (OutputGuardrailTripwireTriggered "hallucination_output_guardrail"
           {| output_info := VObj "hallucination_guardrail" [("hallucination", true)];
              tripwire_triggered := true |}) /\
  outcome (Runner_run orchestrator_agent (VStr submission))
    (stub false false false false true (Final (VStr "Promising."))) =
    inl (OutputGuardrailTripwireTriggered "bias_detection_guardrail"
           {| output_info := VObj "bias_guardrail" [("bias", true)];
              tripwire_triggered := true |}) /\
  outcome (evaluate_startup_gradio submission)
    (stub false false true false false (Final (VStr "Promising."))) =
  outcome (evaluate_startup_gradio submission)
    (stub false false false false true (Final (VStr "Promising."))).
Proof. repeat split; reflexivity. Qed.




(** C7: the product and the team evaluator each carry one output
    guardrail, a bias check; the text they produce goes through it before
    the run returns, and when it triggers the run raises
    [OutputGuardrailTripwireTriggered] with the guardrail's name and its
    details instead of returning the text.  The market evaluator carries
    none and returns its text as it is. *)
Theorem C7_leaf_evaluator_output_guardrails llm input t :
  (output_guardrails product_eval_agent = [bias_in_product_eval] /\
   forall o,
     llm (request product_eval_agent [InputItem (VStr input)]) =
       Some (Final (VStr t)) ->
     outcome (guardrail_function bias_in_product_eval (VStr t)) llm = inr o ->
     outcome (Runner_run product_eval_agent (VStr input)) llm =
       if tripwire_triggered o
       then inl (OutputGuardrailTripwireTriggered "bias_in_product_eval" o)
       else inr {| final_output := VStr t; last_agent := "product_eval_agent" |}) /\
  (output_guardrails team_eval_agent = [bias_in_team_eval] /\
   forall o,
     llm (request team_eval_agent [InputItem (VStr input)]) =
       Some (Final (VStr t)) ->
     outcome (guardrail_function bias_in_team_eval (VStr t)) llm = inr o ->
     outcome (Runner_run team_eval_agent (VStr input)) llm =
       if tripwire_triggered o
       then inl (OutputGuardrailTripwireTriggered "bias_in_team_eval" o)
       else inr {| final_output := VStr t; last_agent := "team_eval_agent" |}) /\
  (output_guardrails market_eval_agent = [] /\
   (llm (request market_eval_agent [InputItem (VStr input)]) =
      Some (Final (VStr t)) ->
    outcome (Runner_run market_eval_agent (VStr input)) llm =
      inr {| final_output := VStr t; last_agent := "market_eval_agent" |})).
Proof.
  repeat split.
  - intros o Hr Hg.
    rewrite (leaf_run product_eval_agent llm input t eq_refl eq_refl Hr).
    change (output_guardrails product_eval_agent) with [bias_in_product_eval].
    rewrite (run_guardrails_single _ _ _ _ _ Hg).
    destruct (tripwire_triggered o); reflexivity.
  - intros o Hr Hg.
    rewrite (leaf_run team_eval_agent llm input t eq_refl eq_refl Hr).
    change (output_guardrails team_eval_agent) with [bias_in_team_eval].
    rewrite (run_guardrails_single _ _ _ _ _ Hg).
    destruct (tripwire_triggered o); reflexivity.
  - intros Hr.
    rewrite (leaf_run market_eval_agent llm input t eq_refl eq_refl Hr).
    reflexivity.
Qed.

Lemma C7_witness :
  outcome (Runner_run product_eval_agent (VStr submission)) (stub_leaves true) =
    inl (OutputGuardrailTripwireTriggered "bias_in_product_eval"
           {| output_info := VObj "product_eval_bias" [("product_eval_bias", true)];
              tripwire_triggered := true |}) /\
  outcome (Runner_run team_eval_agent (VStr submission)) (stub_leaves true) =
    inl (OutputGuardrailTripwireTriggered "bias_in_team_eval"
           {| output_info := VObj "team_eval_bias" [("team_eval_bias", true)];
              tripwire_triggered := true |}) /\
  outcome (Runner_run market_eval_agent (VStr submission)) (stub_leaves true) =
    inr {| final_output := VStr "Score: 4"; last_agent := "market_eval_agent" |}.
Proof.
  pose proof (C7_leaf_evaluator_output_guardrails
                (stub_leaves true) submission "Score: 4") as [[_ Hp] [[_ Ht] [_ Hm]]].
  split; [|split].
  - exact (Hp _ eq_refl eq_refl).
  - exact (Ht _ eq_refl eq_refl).
  - exact (Hm eq_refl).
Defined.

(** C8: when the run of the orchestrator has returned, a reply of the Risk
    Finder without text (no message, or an empty one) gives the risk field
    "No major risks flagged.", and a reply with a text gives that text as
    the risk field.  The driver applies Python's [or] to the final output of
    the run of the Risk Finder, which replaces [None] as well as the empty
    string. *)
Theorem C8_risk_fallback_message llm input r1 :
  outcome (Runner_run orchestrator_agent (VStr input)) llm = inr r1 ->
  (forall v,
     llm (request risk_finder_agent [InputItem (VStr input)]) = Some (Final v) ->
     v = VNone \/ v = VStr "" ->
     outcome (evaluate_startup_gradio input) llm =
       inr (final_output r1, VStr "No major risks flagged.")) /\
  (forall s,
     llm (request risk_finder_agent [InputItem (VStr input)]) =
       Some (Final (VStr s)) ->
     s <> "" ->
     outcome (Runner_run risk_finder_agent (VStr input)) llm =
       inr {| final_output := VStr s; last_agent := "risk_finder_agent" |} /\
     outcome (evaluate_startup_gradio input) llm = inr (final_output r1, VStr s)) /\
  (forall r2,
     outcome (Runner_run risk_finder_agent (VStr input)) llm = inr r2 ->
     outcome (evaluate_startup_gradio input) llm =
       inr (final_output r1,
            py_or (final_output r2) (VStr "No major risks flagged."))) /\
  py_or VNone (VStr "No major risks flagged.") = VStr "No major risks flagged." /\
  py_or (VStr "") (VStr "No major risks flagged.") = VStr "No major risks flagged.".
Proof.
  intros H1.
  assert (Hrun : forall v,
            llm (request risk_finder_agent [InputItem (VStr input)]) =
              Some (Final v) ->
            outcome (Runner_run risk_finder_agent (VStr input)) llm =
              inr {| final_output := plain_output v;
                     last_agent := "risk_finder_agent" |}).
  { intros v Hv. unfold outcome.
    rewrite (Runner_run_plain risk_finder_agent (VStr input) llm
               eq_refl eq_refl eq_refl eq_refl eq_refl), Hv.
    reflexivity. }
  repeat split.
  - intros v Hv [-> | ->];
      now rewrite (evaluate_returned _ _ _ _ H1 (Hrun _ Hv)).
  - rewrite (Hrun _ H). now rewrite plain_output_text.
  - rewrite (evaluate_returned _ _ _ _ H1 (Hrun _ H)).
    cbn [final_output]. rewrite plain_output_text. unfold py_or, truthy.
    destruct (String.eqb s "") eqn:E; [|reflexivity].
    apply String.eqb_eq in E. contradiction.
  - intros r2 H2. exact (evaluate_returned _ _ _ _ H1 H2).
Qed.

Lemma C8_witness :
  outcome (Runner_run orchestrator_agent (VStr submission)) stub_absent_risk =
    inr {| final_output := VStr "Promising."; last_agent := "orchestrator_agent" |} /\
  stub_absent_risk (request risk_finder_agent [InputItem (VStr submission)]) =
    Some (Final VNone) /\
  outcome (evaluate_startup_gradio submission) stub_absent_risk =
    inr (VStr "Promising.", VStr "No major risks flagged.") /\
  stub_no_risk (request risk_finder_agent [InputItem (VStr submission)]) =
    Some (Final (VStr "")) /\
  outcome (evaluate_startup_gradio submission) stub_no_risk =
    inr (VStr "Promising.", VStr "No major risks flagged.").
Proof.
  split; [reflexivity|]. split; [reflexivity|]. split; [|split; [reflexivity|]].
  - exact (proj1 (C8_risk_fallback_message stub_absent_risk submission _ eq_refl)
             VNone eq_refl (or_introl eq_refl)).
  - exact (proj1 (C8_risk_fallback_message stub_no_risk submission _ eq_refl)
             (VStr "") eq_refl (or_intror eq_refl)).
Defined.

(** C9: no agent on a handoff chain from the orchestrator or from the risk
    finder has a tool or has [startup_eval_agent] as a handoff target, and
    no run of the driver calls [startup_eval_agent], calls one of the three
    leaf evaluators, or invokes a tool. *)
Theorem C9_startup_eval_agent_unreachable llm input :
  (forall a,
     In a (handoff_closure orchestrator_agent ++ handoff_closure risk_finder_agent) ->
     tools a = [] /\ ~ In "startup_eval_agent" (map name (handoffs a))) /\
  (forall e,
     In e (trace (evaluate_startup_gradio input) llm) ->
     match e with
     | EInfer c =>
         ~ In (call_agent c)
              ["startup_eval_agent"; "product_eval_agent";
               "market_eval_agent"; "team_eval_agent"]
     | EToolInvoke _ => False
     end).
Proof.
  split.
  - intros a Ha. simpl in Ha.
    repeat (destruct Ha as [<-|Ha];
            [split; [reflexivity|simpl; intuition discriminate]|]).
    destruct Ha.
  - intros e He.
    pose proof (evaluate_calls_only input llm) as Hw.
    unfold within in Hw. rewrite Forall_forall in Hw. specialize (Hw e He).
    destruct e as [c|t]; [|exact Hw].
    simpl in Hw. intros Hc. simpl in Hc.
    repeat (destruct Hw as [Hw|Hw];
            [rewrite <- Hw in Hc; intuition discriminate|]).
    destruct Hw.
Qed.

Lemma C9_witness :
  In (EInfer (request risk_finder_agent [InputItem (VStr submission)]))
     (trace (evaluate_startup_gradio submission) stub_no_risk) /\
  ~ In "risk_finder_agent"
       ["startup_eval_agent"; "product_eval_agent";
        "market_eval_agent"; "team_eval_agent"].
Proof.
  assert (Hin : In (EInfer (request risk_finder_agent [InputItem (VStr submission)]))
                   (trace (evaluate_startup_gradio submission) stub_no_risk)).
  { vm_compute. do 6 right. left. reflexivity. }
  split; [exact Hin|].
  exact (proj2 (C9_startup_eval_agent_unreachable stub_no_risk submission) _ Hin).
Defined.

(** C10 (what the code does): the model identifier of every model call of
    a run is written in the program: "gpt-4o-mini" for the guardrail
    backing agents, none for the other agents.  A model identifier
    configured at startup, when it is another one, reaches no call. *)
Theorem C10_configured_model_is_never_used llm input configured c :
  configured <> "gpt-4o-mini" ->
  In (EInfer c) (trace (evaluate_startup_gradio input) llm) ->
  call_model c <> Some configured /\
  (call_model c = None \/ call_model c = Some "gpt-4o-mini").
Proof.
  intros Hm Hin.
  pose proof (evaluate_fixed_model input llm) as Hw.
  unfold within in Hw. rewrite Forall_forall in Hw. specialize (Hw _ Hin).
  simpl in Hw. split; [|exact Hw].
  destruct Hw as [-> | ->]; [discriminate|].
  intros [= E]. now apply Hm.
Qed.

Lemma C10_witness :
  "gpt-4.1" <> "gpt-4o-mini" /\
  In (EInfer (request bias_guardrail_agent [InputItem (VStr "Promising.")]))
     (trace (evaluate_startup_gradio submission) stub_no_risk) /\
  call_model (request bias_guardrail_agent [InputItem (VStr "Promising.")]) <>
    Some "gpt-4.1" /\
  (call_model (request bias_guardrail_agent [InputItem (VStr "Promising.")]) = None \/
   call_model (request bias_guardrail_agent [InputItem (VStr "Promising.")]) =
     Some "gpt-4o-mini").
Proof.
  assert (Hm : "gpt-4.1" <> "gpt-4o-mini") by discriminate.
  assert (Hin : In (EInfer (request bias_guardrail_agent [InputItem (VStr "Promising.")]))
                   (trace (evaluate_startup_gradio submission) stub_no_risk)).
  { vm_compute. do 5 right. left. reflexivity. }
  split; [exact Hm|]. split; [exact Hin|].
  exact (C10_configured_model_is_never_used stub_no_risk submission "gpt-4.1" _
           Hm Hin).
Defined.

(** * Further properties of the program *)

(** ** A run, stage by stage *)

Lemma Runner_run_stages a v llm :
  Runner_run a v llm =
    match run_guardrails InputGuardrailTripwireTriggered
            (input_guardrails a) v llm with
    | (tg, inl e) => (tg, inl e)
    | (tg, inr _) =>
        match run_loop DEFAULT_MAX_TURNS a [InputItem v] llm with
        | (tl, inl e) => (tg ++ tl, inl e)
        | (tl, inr r) =>
            match run_guardrails OutputGuardrailTripwireTriggered
                    (output_guardrails (fst r)) (snd r) llm with
            | (tc, inl e) => (tg ++ tl ++ tc, inl e)
            | (tc, inr _) =>
                (tg ++ tl ++ tc,
                 inr {| final_output := snd r; last_agent := name (fst r) |})
            end
        end
    end.
Proof.
  unfold Runner_run, bind.
  destruct (run_guardrails _ (input_guardrails a) v llm) as [tg [e|u]];
    [reflexivity|].
  destruct (run_loop DEFAULT_MAX_TURNS a [InputItem v] llm) as [tl [e|r]];
    [reflexivity|].
  destruct (run_guardrails _ (output_guardrails (fst r)) (snd r) llm)
    as [tc [e|u']]; simpl; [reflexivity|].
  now rewrite app_nil_r.
Qed.

(** The agent a loop returns is reachable from its starting agent along
    handoffs. *)
Lemma run_loop_returns_reachable n : forall a conv llm last out,
  outcome (run_loop n a conv) llm = inr (last, out) ->
  In last (handoff_closure a).
Proof.
  induction n as [|n IH]; intros a conv llm last out; [discriminate|].
  assert (Hself : In a (handoff_closure a)) by (destruct a; now left).
  unfold outcome at 1. rewrite run_loop_turn.
  destruct (outcome (infer a conv) llm) as [e|[out'|v|target|t arg]];
    cbn [snd]; try discriminate.
  - intros [= <- <-]. exact Hself.
  - intros H. destruct a; simpl in *. apply IH in H. simpl in H. exact H.
  - destruct (find_handoff target (handoffs a)) as [b|] eqn:E; cbn [snd];
      [|discriminate].
    apply find_handoff_In in E as [Hb _]. intros H. apply IH in H.
    destruct a; simpl in *. right. apply in_flat_map. eauto.
  - destruct (find_tool t (tools a)) as [f|]; cbn [snd]; [|discriminate].
    destruct (outcome (invoke_tool f arg) llm) as [e|o]; cbn [snd];
      [discriminate|].
    intros H. destruct a; simpl in *. apply IH in H. simpl in H. exact H.
Qed.

(** A run of an agent that has no guardrails and hands off to no one is
    its loop. *)
Lemma Runner_run_bare a v llm :
  handoffs a = [] -> input_guardrails a = [] -> output_guardrails a = [] ->
  Runner_run a v llm =
    (trace (run_loop DEFAULT_MAX_TURNS a [InputItem v]) llm,
     match outcome (run_loop DEFAULT_MAX_TURNS a [InputItem v]) llm with
     | inl e => inl e
     | inr r => inr {| final_output := snd r; last_agent := name (fst r) |}
     end).
Proof.
  intros Hh Hi Ho. rewrite Runner_run_stages, Hi. cbn [run_guardrails ret app].
  pose proof (run_loop_returns_reachable DEFAULT_MAX_TURNS a [InputItem v] llm) as Hr.
  unfold trace, outcome in *.
  destruct (run_loop DEFAULT_MAX_TURNS a [InputItem v] llm) as [tl [e|[last out]]];
    cbn [fst snd] in *; [reflexivity|].
  specialize (Hr last out eq_refl).
  assert (last = a) as ->.
  { destruct a; simpl in *. subst. simpl in Hr. destruct Hr as [<-|[]].
    reflexivity. }
  rewrite Ho. simpl. now rewrite app_nil_r.
Qed.

(** ** Which exceptions a computation raises *)






(** ** The guardrail functions *)

Lemma validate_one field fs l :
  validate [field] fs = Some l ->
  exists b, lookup_field field (rev fs) = Some b /\ l = [(field, b)].
Proof.
  simpl. destruct (lookup_field field (rev fs)) as [b|]; [|discriminate].
  intros [= <-]. eauto.
Qed.

Lemma validate_one_found field fs b :
  lookup_field field (rev fs) = Some b ->
  validate [field] fs = Some [(field, b)].
Proof. intros H. simpl. now rewrite H. Qed.

(** The loop of a backing agent: it calls that agent only, once per turn;
    when it returns, the last reply was a JSON object that carries the
    field, and the output is the instance made of that field. *)
Lemma backing_loop backing field T llm :
  tools backing = [] -> handoffs backing = [] ->
  output_type backing = Some T -> class_fields T = [field] ->
  forall n conv,
    Forall (fun e => exists conv', e = EInfer (request backing conv'))
      (trace (run_loop n backing conv) llm) /\
    length (trace (run_loop n backing conv) llm) <= n /\
    (forall last out,
       outcome (run_loop n backing conv) llm = inr (last, out) ->
       last = backing /\
       exists l0 conv' cls fs b,
         trace (run_loop n backing conv) llm =
           l0 ++ [EInfer (request backing conv')] /\
         llm (request backing conv') = Some (Final (VObj cls fs)) /\
         lookup_field field (rev fs) = Some b /\
         out = VObj (class_name T) [(field, b)]).
Proof.
  intros Ht Hh Hty Hf. induction n as [|n IH]; intros conv.
  { split; [constructor|]. split; [unfold trace; simpl; lia|].
    intros last out. discriminate. }
  assert (Hone : Forall (fun e => exists conv', e = EInfer (request backing conv'))
                   [EInfer (request backing conv)])
    by (constructor; [eauto|constructor]).
  unfold trace, outcome. rewrite run_loop_turn, infer_outcome, Hty.
  destruct (llm (request backing conv)) as [[v|target|t arg]|] eqn:E.
  - unfold read_final.
    destruct (truthy v) eqn:Etr.
    + destruct v as [|s|cls fs];
        try (cbn [fst snd length]; split; [exact Hone|];
             split; [lia|intros last out; discriminate]).
      destruct (validate (class_fields T) fs) as [l|] eqn:Ev;
        [|cbn [fst snd length]; split; [exact Hone|];
          split; [lia|intros last out; discriminate]].
      rewrite Hf in Ev. destruct (validate_one _ _ _ Ev) as (b & Hb & ->).
      cbn [fst snd length]. split; [exact Hone|]. split; [lia|].
      intros last out [= <- <-]. split; [reflexivity|].
      exists [], conv, cls, fs, b. auto.
    + destruct (IH (conv ++ [MessageItem v])) as (IH1 & IH2 & IH3).
      cbn [fst snd length]. split; [constructor; eauto|]. split; [lia|].
      intros last out H. destruct (IH3 last out H)
        as (-> & l0 & conv' & cls & fs & b & Htr & Hl & Hb & ->).
      split; [reflexivity|].
      exists (EInfer (request backing conv) :: l0), conv', cls, fs, b.
      rewrite Htr. auto.
  - rewrite Hh. cbn [find_handoff fst snd length].
    split; [exact Hone|]. split; [lia|intros last out; discriminate].
  - rewrite Ht. cbn [find_tool fst snd length].
    split; [exact Hone|]. split; [lia|intros last out; discriminate].
  - cbn [fst snd length].
    split; [exact Hone|]. split; [lia|intros last out; discriminate].
Qed.

(** A guardrail function calls its backing agent only, at most once per
    turn of the agent.  When it answers, the last reply of the backing
    agent was a JSON object that carries the field; the tripwire is the
    value of that field and the details are the validated instance.  When
    the first reply is such an object, it answers after that call. *)
Lemma guardrail_body_spec backing field v llm :
  backs backing field ->
  Forall (fun e => exists conv, e = EInfer (request backing conv))
    (trace (guardrail_body backing field v) llm) /\
  length (trace (guardrail_body backing field v) llm) <= DEFAULT_MAX_TURNS /\
  (forall o,
     outcome (guardrail_body backing field v) llm = inr o ->
     exists T b l0 conv cls fs,
       output_type backing = Some T /\
       trace (guardrail_body backing field v) llm =
         l0 ++ [EInfer (request backing conv)] /\
       llm (request backing conv) = Some (Final (VObj cls fs)) /\
       lookup_field field (rev fs) = Some b /\
       o = {| output_info := VObj (class_name T) [(field, b)];
              tripwire_triggered := b |}) /\
  (forall cls fs b,
     llm (request backing [InputItem v]) = Some (Final (VObj cls fs)) ->
     lookup_field field (rev fs) = Some b ->
     exists T,
       output_type backing = Some T /\
       guardrail_body backing field v llm =
         ([EInfer (request backing [InputItem v])],
          inr {| output_info := VObj (class_name T) [(field, b)];
                 tripwire_triggered := b |})).
Proof.
  intros (Ht & Hh & Hi & Ho & T & HT & Hf).
  destruct (backing_loop backing field T llm Ht Hh HT Hf DEFAULT_MAX_TURNS
              [InputItem v]) as (H1 & H2 & H3).
  assert (Hget : forall b,
            getattr (VObj (class_name T) [(field, b)]) field llm = ([], inr b)).
  { intros b. unfold getattr. simpl. now rewrite String.eqb_refl. }
  unfold trace, outcome, guardrail_body, bind in *.
  rewrite (Runner_run_bare _ _ _ Hh Hi Ho). unfold trace, outcome.
  repeat split.
  - destruct (run_loop DEFAULT_MAX_TURNS backing [InputItem v] llm)
      as [tl [e|[last out]]]; cbn [fst snd] in *; [exact H1|].
    destruct (H3 last out eq_refl) as (_ & _ & _ & _ & _ & b & _ & _ & _ & ->).
    cbn [final_output]. rewrite Hget. unfold ret. simpl. now rewrite app_nil_r.
  - destruct (run_loop DEFAULT_MAX_TURNS backing [InputItem v] llm)
      as [tl [e|[last out]]]; cbn [fst snd] in *; [exact H2|].
    destruct (H3 last out eq_refl) as (_ & _ & _ & _ & _ & b & _ & _ & _ & ->).
    cbn [final_output]. rewrite Hget. unfold ret. simpl. now rewrite app_nil_r.
  - intros o.
    destruct (run_loop DEFAULT_MAX_TURNS backing [InputItem v] llm)
      as [tl [e|[last out]]]; cbn [fst snd] in *; [discriminate|].
    destruct (H3 last out eq_refl)
      as (_ & l0 & conv & cls & fs & b & -> & Hl & Hb & ->).
    cbn [final_output]. rewrite Hget. unfold ret. simpl. intros [= <-].
    exists T, b, l0, conv, cls, fs. rewrite !app_nil_r. auto.
  - intros cls fs b Hl Hb. exists T. split; [exact HT|].
    unfold DEFAULT_MAX_TURNS.
    rewrite (run_loop_final _ _ _ _ _ (VObj (class_name T) [(field, b)]) Hl).
    + cbn [fst snd final_output]. rewrite Hget. reflexivity.
    + rewrite HT. unfold read_final. cbn [truthy]. rewrite Hf.
      now rewrite (validate_one_found _ _ _ Hb).
Qed.

(** A guardrail function starts with a model call of its backing agent on
    the text it is given. *)
Lemma guardrail_body_first_call backing field v llm :
  backs backing field ->
  exists l,
    trace (guardrail_body backing field v) llm =
      EInfer (request backing [InputItem v]) :: l.
Proof.
  intros (Ht & Hh & Hi & Ho & T & HT & Hf).
  destruct (run_loop_first_call 9 backing [InputItem v] llm) as [l Hl].
  change (S 9) with DEFAULT_MAX_TURNS in Hl.
  unfold trace, guardrail_body, bind in *.
  rewrite (Runner_run_bare _ _ _ Hh Hi Ho). unfold trace, outcome.
  destruct (run_loop DEFAULT_MAX_TURNS backing [InputItem v] llm)
    as [tl [e|[last out]]]; cbn [fst snd] in *; subst tl; [eauto|].
  cbn [final_output].
  destruct (getattr out field llm) as [l2 [e|t]]; simpl; eauto.
Qed.

Lemma program_guardrails_backed g backing field :
  In (g, backing, field) program_guardrails ->
  backs backing field /\
  guardrail_function g = guardrail_body backing field /\
  model backing = Some "gpt-4o-mini".
Proof.
  intros H. simpl in H.
  repeat (destruct H as [[= <- <- <-]|H];
          [split; [repeat split; eexists; split; reflexivity|split; reflexivity]|]).
  destruct H.
Qed.

(** ** Guardrail chains *)

(** A chain that lets a text through has evaluated every guardrail, and
    none had its tripwire set. *)
Lemma run_guardrails_passed tripped gs v llm u :
  outcome (run_guardrails tripped gs v) llm = inr u ->
  forall g, In g gs ->
    exists o, outcome (guardrail_function g v) llm = inr o /\
              tripwire_triggered o = false.
Proof.
  induction gs as [|a gs IH]; intros H g Hg; [destruct Hg|].
  simpl run_guardrails in H. unfold outcome, bind in *.
  destruct (guardrail_function a v llm) as [l [e|o]] eqn:E; simpl in H;
    [discriminate|].
  destruct (tripwire_triggered o) eqn:Et; [simpl in H; discriminate|].
  destruct (run_guardrails tripped gs v llm) as [l2 r2] eqn:E2; simpl in *.
  destruct Hg as [<-|Hg].
  - rewrite E. simpl. eauto.
  - now apply IH.
Qed.

Lemma run_guardrails_length tripped gs v llm k :
  (forall g, In g gs -> length (trace (guardrail_function g v) llm) <= k) ->
  length (trace (run_guardrails tripped gs v) llm) <= k * length gs.
Proof.
  induction gs as [|a gs IH]; intros H; simpl; [unfold trace; simpl; lia|].
  assert (Ha := H a (or_introl eq_refl)).
  assert (IH' : length (trace (run_guardrails tripped gs v) llm) <= k * length gs)
    by (apply IH; intros g Hg; apply H; now right).
  unfold trace, bind in *.
  destruct (guardrail_function a v llm) as [l [e|o]]; simpl in *; [nia|].
  destruct (tripwire_triggered o); simpl.
  - rewrite app_nil_r. nia.
  - destruct (run_guardrails tripped gs v llm) as [l2 r2]; simpl in *.
    rewrite length_app. nia.
Qed.

Lemma run_guardrails_single_trace tripped g v llm :
  trace (run_guardrails tripped [g] v) llm = trace (guardrail_function g v) llm.
Proof.
  unfold trace. simpl. unfold bind.
  destruct (guardrail_function g v llm) as [l [e|o]]; [reflexivity|].
  destruct (tripwire_triggered o); simpl; now rewrite app_nil_r.
Qed.

(** ** The run of the orchestrator *)

Lemma orchestrator_height : height_le 3 orchestrator_agent.
Proof. repeat (constructor; simpl; try reflexivity). Qed.

Lemma improvement_closure last :
  In last (handoff_closure startup_improvement_agent) ->
  output_type last = None /\ output_guardrails last = [] /\
  name last <> "orchestrator_agent".
Proof.
  intros H. simpl in H.
  repeat (destruct H as [<-|H];
          [split; [reflexivity|split; [reflexivity|discriminate]]|]).
  destruct H.
Qed.

Lemma height_le_toolless h a : height_le h a -> toolless a.
Proof.
  revert a. induction h as [|h IH]; intros a Ha; inversion Ha; subst.
  constructor; auto.
  match goal with H : Forall _ _ |- _ => revert H end.
  apply Forall_impl. exact IH.
Qed.

Lemma run_loop_length n : forall h a conv llm,
  height_le h a -> length (trace (run_loop n a conv) llm) <= h.
Proof.
  induction n as [|n IH]; intros h a conv llm Ha.
  - unfold trace. simpl. lia.
  - pose proof (height_le_toolless _ _ Ha) as Hless.
    destruct Ha as [h a Ht Hty Hh].
    unfold trace at 1. rewrite (toolless_turn _ _ _ _ Hless).
    destruct (llm (request a conv)) as [[v|target|t arg]|]; simpl; try lia.
    destruct (find_handoff target (handoffs a)) as [b|] eqn:E; simpl; [|lia].
    apply find_handoff_In in E as [Hb _].
    rewrite Forall_forall in Hh.
    specialize (IH h b (conv ++ [HandoffItem (name a) target]) llm (Hh b Hb)).
    lia.
Qed.

(** Either the orchestrator answers itself, in one model call, or the
    answer comes from the improvement agent or one of its delegates. *)
Lemma orchestrator_loop_cases n conv llm last out :
  outcome (run_loop (S n) orchestrator_agent conv) llm = inr (last, out) ->
  (last = orchestrator_agent /\
   trace (run_loop (S n) orchestrator_agent conv) llm =
     [EInfer (request orchestrator_agent conv)]) \/
  In last (handoff_closure startup_improvement_agent).
Proof.
  unfold outcome, trace. rewrite (toolless_turn _ _ _ _ orchestrator_toolless).
  destruct (llm (request orchestrator_agent conv)) as [[v|target|t arg]|];
    try discriminate.
  - cbn [fst snd]. intros [= <- <-]. now left.
  - destruct (find_handoff target (handoffs orchestrator_agent)) as [b|] eqn:E;
      [|discriminate].
    apply find_handoff_In in E as [[<-|[]] _].
    cbn [fst snd]. intros Hr. right.
    now apply (run_loop_returns_reachable _ _ _ _ _ _ Hr).
Qed.

Lemma orchestrator_guardrail_backed g :
  In g (input_guardrails orchestrator_agent ++ output_guardrails orchestrator_agent) ->
  exists backing field, In (g, backing, field) program_guardrails.
Proof.
  intros H. simpl in H.
  repeat (destruct H as [<-|H]; [do 2 eexists; simpl; tauto|]).
  destruct H.
Qed.

Lemma orchestrator_guardrail_trace g v llm :
  In g (input_guardrails orchestrator_agent ++ output_guardrails orchestrator_agent) ->
  length (trace (guardrail_function g v) llm) <= DEFAULT_MAX_TURNS.
Proof.
  intros H. destruct (orchestrator_guardrail_backed g H) as (backing & field & Hin).
  destruct (program_guardrails_backed _ _ _ Hin) as (Hb & -> & _).
  apply (guardrail_body_spec backing field v llm Hb).
Qed.

(** The driver, as a function of the run of the orchestrator and of the
    reply of the risk finder. *)
Lemma evaluate_stages llm input :
  evaluate_startup_gradio input llm =
    match Runner_run orchestrator_agent (VStr input) llm with
    | (t1, inl (OutputGuardrailTripwireTriggered _ _)) =>
        (t1, inr (VStr guardrail_tripped_message, VStr ""))
    | (t1, inl e) => (t1, inl e)
    | (t1, inr r1) =>
        (t1 ++ [EInfer (request risk_finder_agent [InputItem (VStr input)])],
         match llm (request risk_finder_agent [InputItem (VStr input)]) with
         | None => inl InferenceFailure
         | Some (Final x) =>
             inr (final_output r1, py_or (plain_output x) (VStr no_risks_message))
         | Some _ => inl ModelBehaviorError
         end)
    end.
Proof.
  unfold evaluate_startup_gradio, try_except, bind.
  rewrite (Runner_run_plain risk_finder_agent (VStr input) llm
             eq_refl eq_refl eq_refl eq_refl eq_refl).
  destruct (Runner_run orchestrator_agent (VStr input) llm) as [t1 [e|r1]].
  - destruct e; simpl; rewrite ?app_nil_r; reflexivity.
  - destruct (llm (request risk_finder_agent [InputItem (VStr input)]))
      as [[x|t|t arg]|]; reflexivity.
Qed.

Lemma Runner_run_returned a v llm r :
  outcome (Runner_run a v) llm = inr r ->
  exists last out,
    outcome (run_guardrails InputGuardrailTripwireTriggered
               (input_guardrails a) v) llm = inr tt /\
    outcome (run_loop DEFAULT_MAX_TURNS a [InputItem v]) llm = inr (last, out) /\
    outcome (run_guardrails OutputGuardrailTripwireTriggered
               (output_guardrails last) out) llm = inr tt /\
    r = {| final_output := out; last_agent := name last |} /\
    trace (Runner_run a v) llm =
      trace (run_guardrails InputGuardrailTripwireTriggered
               (input_guardrails a) v) llm ++
      trace (run_loop DEFAULT_MAX_TURNS a [InputItem v]) llm ++
      trace (run_guardrails OutputGuardrailTripwireTriggered
               (output_guardrails last) out) llm.
Proof.
  unfold outcome, trace. rewrite Runner_run_stages.
  destruct (run_guardrails _ (input_guardrails a) v llm) as [tg [e|[]]];
    [discriminate|].
  destruct (run_loop DEFAULT_MAX_TURNS a [InputItem v] llm) as [tl [e|[last out]]];
    [discriminate|]. cbn [fst snd].
  destruct (run_guardrails _ (output_guardrails last) out llm)
    as [tc [e|[]]] eqn:E; [discriminate|]. cbn [fst snd].
  intros [= <-]. exists last, out. rewrite E. repeat split; reflexivity.
Qed.

Lemma orchestrator_closure last :
  In last (handoff_closure orchestrator_agent) ->
  last = orchestrator_agent \/ In last (handoff_closure startup_improvement_agent).
Proof. intros [<-|H]; [now left|right]. simpl in *. exact H. Qed.

Lemma plain_output_is_text v : exists s, plain_output v = VStr s.
Proof.
  destruct v as [|s|cls fs];
    [eexists; reflexivity|exists s; apply plain_output_text|eexists; reflexivity].
Qed.

(** The text a run of the orchestrator returns is a string. *)
Lemma orchestrator_returns_text llm input r :
  outcome (Runner_run orchestrator_agent (VStr input)) llm = inr r ->
  exists s, final_output r = VStr s.
Proof.
  intros H.
  destruct (Runner_run_returned _ _ _ _ H) as (last & out & _ & Hl & _ & -> & _).
  destruct (run_loop_returns_last_reply _ _ _ _ _ _ orchestrator_toolless Hl)
    as (_ & _ & v & _ & _ & ->).
  apply plain_output_is_text.
Qed.

Lemma input_chain_calls llm input :
  Forall (calls_only ["input_pii_poli_agent"])
    (trace (run_guardrails InputGuardrailTripwireTriggered
              (input_guardrails orchestrator_agent) (VStr input)) llm).
Proof.
  change (input_guardrails orchestrator_agent) with [pii_and_poli_guardrail].
  rewrite run_guardrails_single_trace. apply input_guardrail_calls.
Qed.

Lemma orchestrator_run_length llm input :
  length (trace (Runner_run orchestrator_agent (VStr input)) llm) <= 51.
Proof.
  unfold trace. rewrite Runner_run_stages.
  pose proof (run_guardrails_length InputGuardrailTripwireTriggered
                (input_guardrails orchestrator_agent) (VStr input) llm
                DEFAULT_MAX_TURNS) as Hg.
  unfold trace in Hg.
  destruct (run_guardrails _ (input_guardrails orchestrator_agent) (VStr input) llm)
    as [tg r0].
  assert (Htg : length tg <= 10).
  { apply Hg. intros g Hin. apply orchestrator_guardrail_trace.
    apply in_or_app. now left. }
  clear Hg. destruct r0 as [e|u]; [simpl; lia|].
  pose proof (run_loop_length DEFAULT_MAX_TURNS 3 orchestrator_agent
                [InputItem (VStr input)] llm orchestrator_height) as Hl.
  pose proof (orchestrator_loop_cases 9 [InputItem (VStr input)] llm) as Hc.
  change (S 9) with DEFAULT_MAX_TURNS in Hc. unfold trace, outcome in Hl, Hc.
  destruct (run_loop DEFAULT_MAX_TURNS orchestrator_agent [InputItem (VStr input)] llm)
    as [tl [e|[last out]]]; cbn [fst snd] in *.
  - rewrite length_app. lia.
  - pose proof (run_guardrails_length OutputGuardrailTripwireTriggered
                  (output_guardrails last) out llm DEFAULT_MAX_TURNS) as Ho.
    unfold trace in Ho.
    destruct (Hc last out eq_refl) as [[-> ->]|Hi].
    + assert (Htc : length (fst (run_guardrails OutputGuardrailTripwireTriggered
                                   (output_guardrails orchestrator_agent) out llm)) <= 40).
      { apply Ho. intros g Hin. apply orchestrator_guardrail_trace.
        apply in_or_app. now right. }
      destruct (run_guardrails _ (output_guardrails orchestrator_agent) out llm)
        as [tc [e|u']]; cbn [fst snd] in *; rewrite !length_app; simpl; lia.
    + destruct (improvement_closure last Hi) as (_ & Hog & _).
      rewrite Hog. simpl. rewrite !length_app. simpl. lia.
Qed.

Lemma orchestrator_chain_names l :
  l = [] \/ In l (handoff_paths orchestrator_agent) ->
  forall x, In x l ->
    In x [ "orchestrator_agent"; "startup_improvement_agent";
           "differentiation_analyzer_agent"; "vision_agent";
           "scalability_agent" ].
Proof.
  intros [->|Hp]; [intros x []|]. simpl in Hp.
  repeat (destruct Hp as [<-|Hp]; [intros x Hx; simpl in *; tauto|]).
  destruct Hp.
Qed.

(** ** The run of [startup_eval_agent] *)

Lemma invoke_tool_trace f arg llm :
  trace (invoke_tool f arg) llm =
    EToolInvoke (tool_name f) :: trace (on_invoke_tool f arg) llm /\
  exists out, outcome (invoke_tool f arg) llm = inr out.
Proof.
  unfold trace, outcome, invoke_tool.
  destruct (on_invoke_tool f arg llm) as [l [e|out]]; simpl; eauto.
Qed.

Lemma startup_tool_trace f arg llm :
  In f (tools startup_eval_agent) ->
  In (tool_name f)
     ["product_evaluation_tool"; "market_evaluation_tool"; "team_evaluation_tool"] /\
  Forall (calls_only (tool_callees (tool_name f))) (trace (on_invoke_tool f arg) llm).
Proof.
  intros H. simpl in H. destruct H as [<-|[<-|[<-|[]]]].
  - split; [simpl; tauto|].
    apply (holds_bind _ (within_app _)).
    + apply (holds_Runner_run _ (within_nil _) (within_app _)).
      prove_respects
        (within_nil (calls_only ["product_eval_agent"; "bias_in_product_eval_agent"]))
        (within_app (calls_only ["product_eval_agent"; "bias_in_product_eval_agent"]))
        ltac:(apply within_infer; simpl; tauto).
    + intros o. apply holds_ret. apply within_nil.
  - split; [simpl; tauto|].
    apply (holds_bind _ (within_app _)).
    + apply (holds_Runner_run _ (within_nil _) (within_app _)).
      prove_respects
        (within_nil (calls_only ["market_eval_agent"]))
        (within_app (calls_only ["market_eval_agent"]))
        ltac:(apply within_infer; simpl; tauto).
    + intros o. apply holds_ret. apply within_nil.
  - split; [simpl; tauto|].
    apply (holds_bind _ (within_app _)).
    + apply (holds_Runner_run _ (within_nil _) (within_app _)).
      prove_respects
        (within_nil (calls_only ["team_eval_agent"; "bias_in_team_eval_agent"]))
        (within_app (calls_only ["team_eval_agent"; "bias_in_team_eval_agent"]))
        ltac:(apply within_infer; simpl; tauto).
    + intros o. apply holds_ret. apply within_nil.
Qed.

Lemma tool_callees_disjoint t t' x :
  In t' ["product_evaluation_tool"; "market_evaluation_tool"; "team_evaluation_tool"] ->
  t' <> t -> In x (tool_callees t') -> ~ In x (tool_callees t).
Proof.
  intros Ht' Hne Hx. unfold tool_callees at 1.
  destruct (String.eqb t "product_evaluation_tool") eqn:E1;
    [apply String.eqb_eq in E1|
     destruct (String.eqb t "market_evaluation_tool") eqn:E2;
       [apply String.eqb_eq in E2|
        destruct (String.eqb t "team_evaluation_tool") eqn:E3;
          [apply String.eqb_eq in E3|intros []]]];
    subst t; simpl in Ht';
    destruct Ht' as [<-|[<-|[<-|[]]]]; try (now elim Hne);
    simpl in Hx; intros Hin; simpl in Hin;
    repeat (destruct Hx as [<-|Hx];
            [repeat (destruct Hin as [Hin|Hin]; [discriminate|]); exact Hin|]);
    exact Hx.
Qed.

Lemma startup_not_callee t : ~ In "startup_eval_agent" (tool_callees t).
Proof.
  unfold tool_callees.
  destruct (String.eqb t "product_evaluation_tool");
    [|destruct (String.eqb t "market_evaluation_tool");
      [|destruct (String.eqb t "team_evaluation_tool")]];
    simpl; intros H; repeat (destruct H as [H|H]; [discriminate|]); exact H.
Qed.

(** A tool the model does not ask for is not invoked, and the agents
    behind it are not called. *)
Lemma startup_loop_avoids_tool llm t :
  (forall conv arg,
     llm (request startup_eval_agent conv) <> Some (ToolCall t arg)) ->
  forall n conv,
    Forall (avoids_tool t) (trace (run_loop n startup_eval_agent conv) llm).
Proof.
  intros Hnever. induction n as [|n IH]; intros conv; [constructor|].
  assert (Hself : avoids_tool t (EInfer (request startup_eval_agent conv)))
    by apply startup_not_callee.
  assert (Hone : Forall (avoids_tool t) [EInfer (request startup_eval_agent conv)])
    by (constructor; [exact Hself|constructor]).
  unfold trace at 1. rewrite run_loop_turn, infer_outcome.
  change (output_type startup_eval_agent) with (@None OutputType).
  destruct (llm (request startup_eval_agent conv)) as [[v|target|t' arg]|] eqn:E;
    cbn [read_final fst snd]; try exact Hone.
  assert (Hne : t' <> t) by (intros ->; exact (Hnever conv arg E)).
  destruct (find_tool t' (tools startup_eval_agent)) as [f|] eqn:Ef;
    [|exact Hone].
  apply find_tool_In in Ef as [Hf <-].
  destruct (startup_tool_trace f arg llm Hf) as [Hname Hcalls].
  destruct (invoke_tool_trace f arg llm) as [Htr [out Hout]].
  rewrite Hout, Htr. cbn [fst snd].
  constructor; [exact Hself|]. constructor; [exact Hne|].
  apply Forall_app. split; [|apply IH].
  eapply Forall_impl; [|exact Hcalls].
  intros [c|t0]; simpl; [|contradiction].
  now apply tool_callees_disjoint.
Qed.

Lemma startup_closure last :
  In last (handoff_closure startup_eval_agent) -> output_guardrails last = [].
Proof. intros [<-|[]]. reflexivity. Qed.



(** * Further properties: the statements *)

(** X2: whenever the driver returns, it returns two strings, and the risk
    string is empty only in the rejection pair, that is, only when an
    output guardrail tripped in the run of the orchestrator. *)
Theorem X2_driver_returns_two_strings llm input feedback risk :
  outcome (evaluate_startup_gradio input) llm = inr (feedback, risk) ->
  exists s r,
    feedback = VStr s /\ risk = VStr r /\
    (r = "" ->
     s = guardrail_tripped_message /\
     exists g o,
       outcome (Runner_run orchestrator_agent (VStr input)) llm =
         inl (OutputGuardrailTripwireTriggered g o)).
Proof.
  unfold outcome. rewrite evaluate_stages.
  pose proof (orchestrator_returns_text llm input) as Ht. unfold outcome in Ht.
  destruct (Runner_run orchestrator_agent (VStr input) llm) as [t1 [e1|r1]];
    cbn [fst snd] in *.
  - destruct e1; cbn [snd]; try discriminate.
    intros [= <- <-]. exists guardrail_tripped_message, "". eauto 6.
  - destruct (Ht r1 eq_refl) as [s Hs].
    destruct (llm (request risk_finder_agent [InputItem (VStr input)]))
      as [[x| |]|]; try discriminate.
    destruct (plain_output_is_text x) as [x' ->].
    intros [= <- <-]. unfold py_or, truthy.
    destruct (String.eqb x' "") eqn:E; simpl.
    + exists s, no_risks_message. split; [exact Hs|]. split; [reflexivity|].
      discriminate.
    + exists s, x'. split; [exact Hs|]. split; [reflexivity|].
      intros ->. discriminate.
Qed.

Lemma X2_witness :
  outcome (evaluate_startup_gradio submission) stub_no_risk =
    inr (VStr "Promising.", VStr "No major risks flagged.") /\
  exists s r,
    VStr "Promising." = VStr s /\ VStr "No major risks flagged." = VStr r /\
    (r = "" ->
     s = guardrail_tripped_message /\
     exists g o,
       outcome (Runner_run orchestrator_agent (VStr submission)) stub_no_risk =
         inl (OutputGuardrailTripwireTriggered g o)).
Proof.
  split; [reflexivity|].
  exact (X2_driver_returns_two_strings stub_no_risk submission _ _ eq_refl).
Defined.

(** X3: the Risk Finder is called exactly when the run of the orchestrator
    has returned; it is then the last call of the evaluation, and it gets
    the raw submission as its only input. *)
Theorem X3_risk_finder_runs_after_orchestrator llm input :
  (In "risk_finder_agent"
      (agents_called (trace (evaluate_startup_gradio input) llm)) <->
   exists r, outcome (Runner_run orchestrator_agent (VStr input)) llm = inr r) /\
  (forall r,
     outcome (Runner_run orchestrator_agent (VStr input)) llm = inr r ->
     trace (evaluate_startup_gradio input) llm =
       trace (Runner_run orchestrator_agent (VStr input)) llm ++
       [EInfer (request risk_finder_agent [InputItem (VStr input)])]).
Proof.
  pose proof (holds_Runner_run _ (within_nil _) (within_app _) _ (VStr input)
                orchestrator_respects_callees llm) as Hw.
  assert (Hno : ~ In "risk_finder_agent"
                     (agents_called (trace (Runner_run orchestrator_agent
                                              (VStr input)) llm))).
  { intros Hin. apply (agents_called_within _ _ Hw) in Hin. simpl in Hin.
    repeat (destruct Hin as [Hin|Hin]; [discriminate|]). exact Hin. }
  clear Hw. unfold trace, outcome in *. rewrite evaluate_stages.
  destruct (Runner_run orchestrator_agent (VStr input) llm) as [t1 [e1|r1]];
    cbn [fst snd] in *.
  - split; [|intros r; discriminate]. split.
    + intros Hin. exfalso. apply Hno. destruct e1; exact Hin.
    + intros [r Hr]. discriminate.
  - split; [|reflexivity]. split; [eauto|]. intros _.
    rewrite agents_called_app. apply in_or_app. right. now left.
Qed.

(** X4: one evaluation makes at most 52 model calls: at most ten by the
    backing agent of each of the five guardrails of the orchestrator, one by
    the orchestrator and one by the Risk Finder; a handoff chain has at most
    three calls and is followed by no output check.  The bound is reached
    when every backing agent answers on its tenth turn only. *)
Theorem X4_at_most_52_model_calls :
  (forall llm input, length (trace (evaluate_startup_gradio input) llm) <= 52) /\
  length (trace (evaluate_startup_gradio submission) stub_hesitant) = 52.
Proof.
  split; [|vm_compute; reflexivity].
  intros llm input.
  pose proof (orchestrator_run_length llm input) as H.
  unfold trace in *. rewrite evaluate_stages.
  destruct (Runner_run orchestrator_agent (VStr input) llm) as [t1 [e1|r1]];
    cbn [fst snd] in *.
  - destruct e1; simpl; lia.
  - simpl. rewrite length_app. simpl. lia.
Qed.

(** X5: when the run of the orchestrator returns the answer of another
    agent (a handoff took place), none of the four output guardrails has
    been evaluated. *)
Theorem X5_no_output_check_after_handoff llm input r :
  outcome (Runner_run orchestrator_agent (VStr input)) llm = inr r ->
  last_agent r <> "orchestrator_agent" ->
  forall n,
    In n [ "sensitive_content_agent"; "hallucination_finder_agent";
           "extreme_language_agent"; "bias_agent" ] ->
    ~ In n (agents_called (trace (Runner_run orchestrator_agent (VStr input)) llm)).
Proof.
  intros H Hname n Hn.
  destruct (Runner_run_returned _ _ _ _ H)
    as (last & out & _ & Hl & _ & -> & ->).
  pose proof (run_loop_returns_reachable _ _ _ _ _ _ Hl) as Hin.
  destruct (orchestrator_closure last Hin) as [->|Hi]; [now elim Hname|].
  destruct (improvement_closure last Hi) as (_ & -> & _).
  rewrite !agents_called_app.
  change (agents_called (trace (run_guardrails OutputGuardrailTripwireTriggered
                                  [] out) llm)) with (@nil string).
  rewrite app_nil_r. intros Hq. apply in_app_or in Hq. destruct Hq as [Hq|Hq].
  - apply (agents_called_within _ _ (input_chain_calls llm input)) in Hq.
    destruct Hq as [<-|[]]. simpl in Hn.
    repeat (destruct Hn as [Hn|Hn]; [discriminate|]). exact Hn.
  - pose proof (orchestrator_chain_names _
                  (run_loop_chain DEFAULT_MAX_TURNS orchestrator_agent
                     [InputItem (VStr input)] llm orchestrator_toolless) n Hq)
      as Hsub.
    simpl in Hn, Hsub.
    repeat (destruct Hn as [<-|Hn];
            [repeat (destruct Hsub as [Hsub|Hsub]; [discriminate|]); exact Hsub|]).
    exact Hn.
Qed.

Lemma X5_witness :
  outcome (Runner_run orchestrator_agent (VStr submission))
    (stub false true true true true (Handoff "startup_improvement_agent")) =
    inr {| final_output := VStr "Sharpen the moat.";
           last_agent := "startup_improvement_agent" |} /\
  ~ In "bias_agent"
       (agents_called
          (trace (Runner_run orchestrator_agent (VStr submission))
             (stub false true true true true (Handoff "startup_improvement_agent")))).
Proof.
  split; [reflexivity|].
  apply (X5_no_output_check_after_handoff
           (stub false true true true true (Handoff "startup_improvement_agent"))
           submission _ eq_refl).
  - discriminate.
  - simpl. tauto.
Defined.

(** X6: a run of the orchestrator that returns has passed the input
    guardrail, and when the answer is the orchestrator's own it has passed
    each of the four output guardrails: every one was evaluated on the
    returned text and none had its tripwire set. *)
Theorem X6_returned_text_passed_the_guardrails llm input r :
  outcome (Runner_run orchestrator_agent (VStr input)) llm = inr r ->
  (exists o,
     outcome (guardrail_function pii_and_poli_guardrail (VStr input)) llm = inr o /\
     tripwire_triggered o = false) /\
  (last_agent r = "orchestrator_agent" ->
   forall g,
     In g [sens_content_guardrail; hallucination_output_guardrail;
           extreme_language_guardrail; bias_detection_guardrail] ->
     exists o,
       outcome (guardrail_function g (final_output r)) llm = inr o /\
       tripwire_triggered o = false).
Proof.
  intros H.
  destruct (Runner_run_returned _ _ _ _ H)
    as (last & out & Hg & Hl & Ho & -> & _).
  split.
  - apply (run_guardrails_passed _ _ _ _ _ Hg). now left.
  - cbn [last_agent final_output]. intros Hname g Hin.
    pose proof (run_loop_returns_reachable _ _ _ _ _ _ Hl) as Hc.
    destruct (orchestrator_closure last Hc) as [->|Hi].
    + now apply (run_guardrails_passed _ _ _ _ _ Ho).
    + destruct (improvement_closure last Hi) as (_ & _ & Hn). now elim Hn.
Qed.

Lemma X6_witness :
  outcome (Runner_run orchestrator_agent (VStr submission)) stub_no_risk =
    inr {| final_output := VStr "Promising."; last_agent := "orchestrator_agent" |} /\
  exists o,
    outcome (guardrail_function bias_detection_guardrail (VStr "Promising."))
      stub_no_risk = inr o /\
    tripwire_triggered o = false.
Proof.
  split; [reflexivity|].
  apply (proj2 (X6_returned_text_passed_the_guardrails stub_no_risk submission
                  _ eq_refl) eq_refl).
  simpl. tauto.
Defined.

(** X7: each of the seven guardrail functions runs its backing agent on
    the text under evaluation, and calls no other agent.  The backing agent
    is asked again as long as it answers with an empty text, so the function
    makes between one and [DEFAULT_MAX_TURNS] model calls.  When the
    function answers, the last reply of the backing agent was a JSON object
    that carries the boolean field the function reads: the tripwire is the
    value of that field (of the last member of that name) and the details
    are the instance made of that field, other members dropped.  When the
    first reply is such an object, the function answers after that one
    call. *)
Theorem X7_guardrail_verdict g backing field v llm :
  In (g, backing, field) program_guardrails ->
  (exists l,
     trace (guardrail_function g v) llm =
       EInfer (request backing [InputItem v]) :: l /\
     Forall (fun e => exists conv, e = EInfer (request backing conv)) l /\
     S (length l) <= DEFAULT_MAX_TURNS) /\
  (forall o,
     outcome (guardrail_function g v) llm = inr o ->
     exists T b l0 conv cls fs,
       output_type backing = Some T /\
       trace (guardrail_function g v) llm =
         l0 ++ [EInfer (request backing conv)] /\
       llm (request backing conv) = Some (Final (VObj cls fs)) /\
       lookup_field field (rev fs) = Some b /\
       o = {| output_info := VObj (class_name T) [(field, b)];
              tripwire_triggered := b |}) /\
  (forall cls fs b,
     llm (request backing [InputItem v]) = Some (Final (VObj cls fs)) ->
     lookup_field field (rev fs) = Some b ->
     exists T,
       output_type backing = Some T /\
       guardrail_function g v llm =
         ([EInfer (request backing [InputItem v])],
          inr {| output_info := VObj (class_name T) [(field, b)];
                 tripwire_triggered := b |})).
Proof.
  intros H. destruct (program_guardrails_backed _ _ _ H) as (Hb & -> & _).
  destruct (guardrail_body_spec backing field v llm Hb) as (H1 & H2 & H3 & H4).
  split; [|split; assumption].
  destruct (guardrail_body_first_call backing field v llm Hb) as [l Hl].
  exists l. rewrite Hl in H1, H2. inversion H1; subst. simpl in H2. auto.
Qed.

Lemma X7_witness :
  In (hallucination_output_guardrail, hallucination_guardrail_agent, "hallucination")
     program_guardrails /\
  stub_extra_member
    (request hallucination_guardrail_agent [InputItem (VStr "Promising.")]) =
    Some (Final (VObj "" [("hallucination", false); ("confidence", true);
                          ("hallucination", true)])) /\
  guardrail_function hallucination_output_guardrail (VStr "Promising.")
    stub_extra_member =
    ([EInfer (request hallucination_guardrail_agent [InputItem (VStr "Promising.")])],
     inr {| output_info := VObj "hallucination_guardrail" [("hallucination", true)];
            tripwire_triggered := true |}).
Proof.
  assert (H : In (hallucination_output_guardrail, hallucination_guardrail_agent,
                  "hallucination") program_guardrails) by (simpl; tauto).
  split; [exact H|]. split; [reflexivity|].
  destruct (proj2 (proj2 (X7_guardrail_verdict _ _ _ (VStr "Promising.")
                            stub_extra_member H))
              "" [("hallucination", false); ("confidence", true);
                  ("hallucination", true)] true eq_refl eq_refl)
    as (T & HT & Hrun).
  injection HT as <-. exact Hrun.
Defined.

(** X8: tool dispatch has no incidental fan-out.  In a run of
    [startup_eval_agent], a tool that the model never asks for is never
    invoked, and neither the leaf evaluator behind it nor the backing agent
    of that evaluator's guardrail is called. *)
Theorem X8_unselected_tool_is_not_run llm input t :
  (forall conv arg,
     llm (request startup_eval_agent conv) <> Some (ToolCall t arg)) ->
  Forall (avoids_tool t)
    (trace (Runner_run startup_eval_agent (VStr input)) llm).
Proof.
  intros Hnever. unfold trace. rewrite Runner_run_stages.
  change (input_guardrails startup_eval_agent) with (@nil Guardrail).
  cbn [run_guardrails ret].
  pose proof (startup_loop_avoids_tool llm t Hnever DEFAULT_MAX_TURNS
                [InputItem (VStr input)]) as Hl.
  pose proof (run_loop_returns_reachable DEFAULT_MAX_TURNS startup_eval_agent
                [InputItem (VStr input)] llm) as Hr.
  unfold trace, outcome in Hl, Hr.
  destruct (run_loop DEFAULT_MAX_TURNS startup_eval_agent [InputItem (VStr input)] llm)
    as [tl [e|[last out]]]; cbn [fst snd] in *; [exact Hl|].
  rewrite (startup_closure last (Hr last out eq_refl)). simpl.
  now rewrite app_nil_r.
Qed.

Lemma X8_witness :
  (forall conv arg,
     stub_team_only (request startup_eval_agent conv) <>
       Some (ToolCall "product_evaluation_tool" arg)) /\
  Forall (avoids_tool "product_evaluation_tool")
    (trace (Runner_run startup_eval_agent (VStr submission)) stub_team_only).
Proof.
  assert (H : forall conv arg,
            stub_team_only (request startup_eval_agent conv) <>
              Some (ToolCall "product_evaluation_tool" arg)).
  { intros conv arg. unfold stub_team_only. simpl.
    destruct conv as [|i [|j r]]; discriminate. }
  split; [exact H|].
  exact (X8_unselected_tool_is_not_run stub_team_only submission
           "product_evaluation_tool" H).
Defined.


